(** * wavesurfer.js: the [WaveSurfer] orchestrator of [src/wavesurfer.ts]

    A shallow embedding of the class [WaveSurfer]: its fields, its public
    operations and the handlers it attaches to its collaborators (media
    player, renderer, timer, plugins).

    - JavaScript numbers are IEEE 754 binary64 values: primitive [float]s.
    - The options object is a finite map from property names to values; a
      missing key reads as [undefined].
    - Every operation is a computation in the monad [M]: it threads the
      instance, may throw, may stay suspended at an [await] forever, and
      records, in order, every call it makes to a collaborator and every
      event it emits, each with the fields a listener could read at that
      moment.
    - A call of an [async] method is run to its end, or to the [await] it
      never leaves; what its collaborators answer on the way is given by a
      [World].  Two calls interleaved at their [await]s are not modelled.
    - player.ts, renderer.ts, timer.ts, decoder.ts, fetcher.ts,
      base-plugin.ts and event-emitter.ts are collaborators: their calls
      are recorded, and what the orchestrator needs of their behaviour is
      modelled from the specification, where the definition says so. *)

From Stdlib Require Import Floats.
From stdpp Require Import gmap strings list.

(** ** JavaScript values *)

Module Js.

(** [x === 0] on numbers: IEEE equality, true for both zeros. *)
Definition is_zero (x : float) : bool := PrimFloat.eqb x 0%float.

(** [x === Infinity]. *)
Definition is_infinity (x : float) : bool := PrimFloat.eqb x infinity.

(** ToBoolean of a number: [0], [-0] and [NaN] are falsy. *)
Definition truthy_num (x : float) : bool :=
  negb (is_zero x) && negb (PrimFloat.is_nan x).

(** ToBoolean of a string: only the empty string is falsy. *)
Definition truthy_str (s : string) : bool :=
  if decide (s = "") then false else true.

(** ToBoolean of a possibly [undefined] string. *)
Definition truthy_ostr (o : option string) : bool :=
  match o with Some s => truthy_str s | None => false end.

(** [a || b] when both sides are possibly [undefined] strings. *)
Definition or_ostr (a b : option string) : option string :=
  if truthy_ostr a then a else b.

End Js.

(** ** Data *)

(** Objects the orchestrator only passes around are opaque handles. *)
Definition Handle := nat.

(** Pre-computed audio data: [Array<Float32Array | number[]>]. *)
Definition Peaks := list (list float).

(** A plugin is an object compared by identity ([p !== plugin]). *)
Definition PluginId := nat.

(** Modelled from the spec: the media player ([Player], the base class in
    player.ts), reduced to what its contract exposes: [isPlaying()],
    [getCurrentTime()] and [getDuration()]. *)
Record Player := {
  playing : bool;
  currentTime : float;
  mediaDuration : float;
}.

(** What the orchestrator reads of an [HTMLMediaElement] given as
    [options.media], and the playback state the player finds in it. *)
Record MediaElement := {
  currentSrc : string;
  src : string;
  playback : Player;
}.

Inductive Value :=
| VUndefined
| VBool (b : bool)
| VNum (x : float)
| VStr (s : string)
| VPeaks (p : Peaks)
| VMedia (m : MediaElement)
| VPlugins (ps : list PluginId)
| VObject (h : Handle).

(** [WaveSurferOptions]: a JavaScript object used as a record with
    optional fields. *)
Abbreviation Options := (gmap string Value).

(** [AudioBuffer]: how the buffer was obtained and the duration it
    reports. *)
Record AudioBuffer := {
  ab_duration : float;
  ab_channels : option Peaks;
  ab_source : option Handle;
}.

Inductive Event :=
| EvLoad (url : string)
| EvDecode (duration : option float)
| EvReady (duration : option float)
| EvRedraw
| EvPlay
| EvPause
| EvFinish
| EvTimeupdate (currentTime : float)
| EvAudioprocess (currentTime : float)
| EvSeeking (currentTime : float)
| EvInteraction (newTime : float)
| EvClick (relativeX : float)
| EvDrag (relativeX : float)
| EvScroll (visibleStartTime visibleEndTime : float)
| EvZoom (minPxPerSec : float)
| EvDestroy.

Inductive MediaEvent := MTimeupdate | MPlay | MPause | MEnded | MSeeking.
Inductive RendererEvent := RClick | RScroll | RRender | RDrag.

(** One entry of [this.subscriptions]: the listener it detaches. *)
Inductive Subscription :=
| SubMedia (ev : MediaEvent)
| SubRenderer (ev : RendererEvent)
| SubTimerTick
| SubPluginDestroy (p : PluginId).

Global Instance MediaEvent_eq_dec : EqDecision MediaEvent.
Proof. solve_decision. Defined.
Global Instance RendererEvent_eq_dec : EqDecision RendererEvent.
Proof. solve_decision. Defined.
Global Instance Subscription_eq_dec : EqDecision Subscription.
Proof. solve_decision. Defined.

Inductive Error :=
| JsError (message : string)
| FetchFailure
| ReadFailure
| DecodeFailure.

(** Calls to collaborators and emitted events, as they happen. *)
Inductive Action :=
| Emit (e : Event)
| PlayerPause
| PlayerSetSrc (url : string) (blob : option Handle)
| PlayerSetTime (t : float)
| PlayerSetPlaybackRate (rate : Value)
| PlayerOnceLoadedMetadata
| PlayerDestroy
| FetchBlob (url : string) (fetchParams : Value)
| BlobArrayBuffer (blob : Handle)
| DecoderCreateBuffer (channelData : Peaks) (duration : option float)
| DecoderDecode (arrayBuffer : Handle) (sampleRate : Value)
| RendererSetOptions (o : Options)
| RendererRender (data : AudioBuffer)
| RendererRenderProgress (progress : float) (isPlaying : option bool)
| RendererZoom (minPxPerSec : float)
| RendererDestroy
| TimerStart
| TimerStop
| TimerDestroy
| PluginInit (p : PluginId)
| PluginDestroy (p : PluginId)
| Unsubscribe (s : Subscription)
| NewPlayer (media autoplay playbackRate : Value)
| NewTimer
| NewRenderer (o : Options)
| ClearTimeout (h : option nat)
| SetTimeout (h : nat) (seekTo : float) (delay : nat).

(** ToBoolean of an arbitrary value; objects are truthy. *)
Definition truthy (v : Value) : bool :=
  match v with
  | VUndefined => false
  | VBool b => b
  | VNum x => Js.truthy_num x
  | VStr s => Js.truthy_str s
  | VPeaks _ | VMedia _ | VPlugins _ | VObject _ => true
  end.

(** [o.k]: a missing property reads as [undefined]. *)
Definition prop (k : string) (o : Options) : Value := default VUndefined (o !! k).

(** Properties read at their declared TypeScript type. *)
Definition prop_str (k : string) (o : Options) : option string :=
  match prop k o with VStr s => Some s | _ => None end.

Definition prop_num (k : string) (o : Options) : option float :=
  match prop k o with VNum x => Some x | _ => None end.

Definition prop_peaks (k : string) (o : Options) : option Peaks :=
  match prop k o with VPeaks p => Some p | _ => None end.

Definition prop_media (k : string) (o : Options) : option MediaElement :=
  match prop k o with VMedia m => Some m | _ => None end.

Definition prop_plugins (k : string) (o : Options) : option (list PluginId) :=
  match prop k o with VPlugins ps => Some ps | _ => None end.

(** [Object.assign({}, base, over)]: own properties of [over] win. *)
Definition assign (base over : Options) : Options := over ∪ base.

Definition defaultOptions : Options :=
  list_to_map [
    ("waveColor", VStr "#999");
    ("progressColor", VStr "#555");
    ("cursorWidth", VNum 1);
    ("minPxPerSec", VNum 0);
    ("fillParent", VBool true);
    ("interact", VBool true);
    ("autoScroll", VBool true);
    ("autoCenter", VBool true);
    ("sampleRate", VNum 8000)
  ].

(** ** The instance *)

(** [let debounce] of [initRendererEvents] with the callbacks scheduled by
    [setTimeout] and not yet run or cleared: handle, seek target, delay. *)
Record Scheduler := {
  debounce : option nat;
  pending : list (nat * (float * nat));
  nextHandle : nat;
}.

Record WaveSurfer := {
  options : Options;
  plugins : list PluginId;
  decodedData : option AudioBuffer;
  duration : option float;
  subscriptions : list Subscription;
  (** the base class *)
  player : Player;
  (** listeners currently attached to the collaborators' emitters *)
  listeners : list Subscription;
  scheduler : Scheduler;
}.

Definition set_options (o : Options) (w : WaveSurfer) : WaveSurfer :=
  {| options := o; plugins := plugins w; decodedData := decodedData w;
     duration := duration w; subscriptions := subscriptions w;
     player := player w; listeners := listeners w; scheduler := scheduler w |}.

Definition set_plugins (ps : list PluginId) (w : WaveSurfer) : WaveSurfer :=
  {| options := options w; plugins := ps; decodedData := decodedData w;
     duration := duration w; subscriptions := subscriptions w;
     player := player w; listeners := listeners w; scheduler := scheduler w |}.

Definition set_decodedData (d : option AudioBuffer) (w : WaveSurfer) : WaveSurfer :=
  {| options := options w; plugins := plugins w; decodedData := d;
     duration := duration w; subscriptions := subscriptions w;
     player := player w; listeners := listeners w; scheduler := scheduler w |}.

Definition set_duration (d : option float) (w : WaveSurfer) : WaveSurfer :=
  {| options := options w; plugins := plugins w; decodedData := decodedData w;
     duration := d; subscriptions := subscriptions w;
     player := player w; listeners := listeners w; scheduler := scheduler w |}.

Definition set_subscriptions (l : list Subscription) (w : WaveSurfer) : WaveSurfer :=
  {| options := options w; plugins := plugins w; decodedData := decodedData w;
     duration := duration w; subscriptions := l;
     player := player w; listeners := listeners w; scheduler := scheduler w |}.

Definition set_player (p : Player) (w : WaveSurfer) : WaveSurfer :=
  {| options := options w; plugins := plugins w; decodedData := decodedData w;
     duration := duration w; subscriptions := subscriptions w;
     player := p; listeners := listeners w; scheduler := scheduler w |}.

Definition set_listeners (l : list Subscription) (w : WaveSurfer) : WaveSurfer :=
  {| options := options w; plugins := plugins w; decodedData := decodedData w;
     duration := duration w; subscriptions := subscriptions w;
     player := player w; listeners := l; scheduler := scheduler w |}.

Definition set_scheduler (t : Scheduler) (w : WaveSurfer) : WaveSurfer :=
  {| options := options w; plugins := plugins w; decodedData := decodedData w;
     duration := duration w; subscriptions := subscriptions w;
     player := player w; listeners := listeners w; scheduler := t |}.

(** ** Computations *)

Record Entry := {
  act : Action;
  seen : WaveSurfer;
}.

Inductive Outcome (A : Type) :=
| Returned (a : A)
| Threw (e : Error)
| Suspended.
Arguments Returned {A} a.
Arguments Threw {A} e.
Arguments Suspended {A}.

Record Run (A : Type) := {
  outcome : Outcome A;
  final : WaveSurfer;
  trace : list Entry;
}.
Arguments outcome {A} r.
Arguments final {A} r.
Arguments trace {A} r.

Definition M (A : Type) : Type := WaveSurfer → Run A.

Global Instance M_ret : MRet M := λ A a w,
  {| outcome := Returned a; final := w; trace := [] |}.

Definition extend {A} (t : list Entry) (r : Run A) : Run A :=
  match r with
  | {| outcome := o; final := w; trace := t' |} =>
      {| outcome := o; final := w; trace := t ++ t' |}
  end.

(** Sequencing stops at the first computation that throws or stays
    suspended; the instance keeps whatever state it had reached. *)
Global Instance M_bind : MBind M := λ A B f m w,
  match m w with
  | {| outcome := Returned a; final := w'; trace := t |} => extend t (f a w')
  | {| outcome := Threw e; final := w'; trace := t |} =>
      {| outcome := Threw e; final := w'; trace := t |}
  | {| outcome := Suspended; final := w'; trace := t |} =>
      {| outcome := Suspended; final := w'; trace := t |}
  end.

Definition this : M WaveSurfer := λ w,
  {| outcome := Returned w; final := w; trace := [] |}.

Definition update (f : WaveSurfer → WaveSurfer) : M unit := λ w,
  {| outcome := Returned tt; final := f w; trace := [] |}.

Definition call (a : Action) : M unit := λ w,
  {| outcome := Returned tt; final := w; trace := [ {| act := a; seen := w |} ] |}.

Definition throw {A} (e : Error) : M A := λ w,
  {| outcome := Threw e; final := w; trace := [] |}.

Definition suspend {A} : M A := λ w,
  {| outcome := Suspended; final := w; trace := [] |}.

(** A call to an [async] method whose promise is dropped: the caller goes
    on whatever becomes of it. *)
Definition detached (m : M unit) : M unit := λ w,
  let r := m w in
  {| outcome := Returned tt; final := final r; trace := trace r |}.

Definition when (b : bool) (m : M unit) : M unit := if b then m else mret tt.

Fixpoint forEach {A} (l : list A) (f : A → M unit) : M unit :=
  match l with
  | [] => mret tt
  | x :: l' => f x ;; forEach l' f
  end.

Fixpoint times (n : nat) (m : M unit) : M unit :=
  match n with
  | O => mret tt
  | S n' => m ;; times n' m
  end.

(** The actions of a run, without the states they were seen in. *)
Abbreviation actions r := (act <$> trace r).

Definition event_of (a : Action) : option Event :=
  match a with Emit ev => Some ev | _ => None end.

(** The public events of a run. *)
Abbreviation emitted r := (omap event_of (actions r)).

(** Modelled from the spec: [emit] of event-emitter.ts publishes the
    event; the listeners are the caller's. *)
Definition emit (e : Event) : M unit := call (Emit e).

(** What the collaborators answer in the course of one [load]. *)
Inductive Settled (A : Type) :=
| Resolved (a : A)
| Rejected
| Never.
Arguments Resolved {A} a.
Arguments Rejected {A}.
Arguments Never {A}.

Record World := {
  (** [Fetcher.fetchBlob] *)
  fetched : Settled Handle;
  (** the duration the media player reports once its source is set *)
  srcDuration : float;
  (** the duration it reports when [loadedmetadata] fires, if it ever does *)
  metadataDuration : option float;
  (** [blob.arrayBuffer()] *)
  arrayBuffer : Settled Handle;
  (** [Decoder.decode] *)
  decoded : Settled AudioBuffer;
  (** how many [render] signals the renderer fires from [render] *)
  renders : nat;
  (** whether a plugin's [destroy()] fires its [destroy] signal *)
  signals : PluginId → bool;
  (** the state of the element the player creates when none is given *)
  audio : Player;
}.

Definition await {A} (x : Settled A) (e : Error) : M A :=
  match x with
  | Resolved a => mret a
  | Rejected => throw e
  | Never => suspend
  end.

(** ** The base class and the other collaborators *)

(** Modelled from the spec: [Player.isPlaying] and [Player.getCurrentTime]
    of player.ts read the media player's state. *)
Definition isPlaying : M bool := w ← this; mret (playing (player w)).

Definition getCurrentTime : M float := w ← this; mret (currentTime (player w)).

(** Modelled from the spec: [Player.pause] of player.ts; the player is no
    longer playing afterwards. *)
Definition pause : M unit :=
  call PlayerPause ;;
  update (λ w, set_player {| playing := false;
                             currentTime := currentTime (player w);
                             mediaDuration := mediaDuration (player w) |} w).

(** Modelled from the spec: [Player.setTime] of player.ts sets the media
    player's position. *)
Definition setTime (t : float) : M unit :=
  call (PlayerSetTime t) ;;
  update (λ w, set_player {| playing := playing (player w);
                             currentTime := t;
                             mediaDuration := mediaDuration (player w) |} w).

(** Modelled from the spec: [Player.setPlaybackRate] of player.ts, a call
    on the media player. *)
Definition setPlaybackRate (rate : Value) : M unit :=
  call (PlayerSetPlaybackRate rate).

(** Modelled from the spec: [Player.setSrc] of player.ts binds the url (and
    the blob, if any) to the media player; what the player then reports as
    its duration is the world's answer. *)
Definition setSrc (env : World) (url : string) (blob : option Handle) : M unit :=
  call (PlayerSetSrc url blob) ;;
  update (λ w, set_player {| playing := playing (player w);
                             currentTime := currentTime (player w);
                             mediaDuration := srcDuration env |} w).

(** Modelled from the spec: [Fetcher.fetchBlob(url,
    this.options.fetchParams)] of fetcher.ts suspends and may fail. *)
Definition fetchBlob (env : World) (url : string) : M Handle :=
  w ← this;
  call (FetchBlob url (prop "fetchParams" (options w))) ;;
  await (fetched env) FetchFailure.

(** Modelled from the spec: [Decoder.createBuffer] of decoder.ts builds a
    decoded-audio handle from the peaks paired with the duration;
    synchronous and non-failing. *)
Definition createBuffer (channelData : Peaks) (d : float) : AudioBuffer :=
  {| ab_duration := d; ab_channels := Some channelData; ab_source := None |}.

(** [WaveSurfer.getDuration]: the resolved duration, else the player's. *)
Definition getDuration : M float :=
  w ← this;
  match duration w with
  | Some d => mret d
  | None => mret (mediaDuration (player w))
  end.

(** [seekTo(progress)] *)
Definition seekTo (progress : float) : M unit :=
  d ← getDuration;
  setTime (PrimFloat.mul d progress).

(** ** Handlers attached in the constructor *)

Definition interactive (w : WaveSurfer) : bool := truthy (prop "interact" (options w)).

(** [renderer.on('click', ...)] *)
Definition onClick (relativeX : float) : M unit :=
  w ← this;
  when (interactive w)
    (seekTo relativeX ;;
     t ← getCurrentTime;
     emit (EvInteraction t) ;;
     emit (EvClick relativeX)).

(** [renderer.on('scroll', ...)] *)
Definition onScroll (startX endX : float) : M unit :=
  d ← getDuration;
  emit (EvScroll (PrimFloat.mul startX d) (PrimFloat.mul endX d)).

(** [renderer.on('render', ...)] *)
Definition onRender : M unit := emit EvRedraw.

(** [clearTimeout(debounce)] *)
Definition clearDebounce : M unit :=
  w ← this;
  let t := scheduler w in
  call (ClearTimeout (debounce t)) ;;
  update (set_scheduler
    {| debounce := debounce t;
       pending := filter (λ c, Some (fst c) ≠ debounce t) (pending t);
       nextHandle := nextHandle t |}).

(** [debounce = setTimeout(() => this.seekTo(relativeX), delay)] *)
Definition setDebounce (relativeX : float) (delay : nat) : M unit :=
  w ← this;
  let t := scheduler w in
  call (SetTimeout (nextHandle t) relativeX delay) ;;
  update (set_scheduler
    {| debounce := Some (nextHandle t);
       pending := pending t ++ [(nextHandle t, (relativeX, delay))];
       nextHandle := S (nextHandle t) |}).

(** [renderer.on('drag', ...)] *)
Definition onDrag (relativeX : float) : M unit :=
  w ← this;
  if negb (interactive w) then mret tt else
    call (RendererRenderProgress relativeX None) ;;
    clearDebounce ;;
    p ← isPlaying;
    setDebounce relativeX (if (p : bool) then 0 else 200) ;;
    d ← getDuration;
    emit (EvInteraction (PrimFloat.mul relativeX d)) ;;
    emit (EvDrag relativeX).

(** A scheduled callback comes due. *)
Definition onTimeout (h : nat) : M unit :=
  w ← this;
  let t := scheduler w in
  match list_find (λ c, fst c = h) (pending t) with
  | Some (_, (_, (relativeX, _))) =>
      update (set_scheduler
        {| debounce := debounce t;
           pending := filter (λ c, fst c ≠ h) (pending t);
           nextHandle := nextHandle t |}) ;;
      seekTo relativeX
  | None => mret tt
  end.

(** [this.timer.on('tick', ...)] *)
Definition onTick : M unit :=
  t ← getCurrentTime;
  d ← getDuration;
  call (RendererRenderProgress (PrimFloat.div t d) (Some true)) ;;
  emit (EvTimeupdate t) ;;
  emit (EvAudioprocess t).

(** [this.onMediaEvent(...)] *)
Definition onMedia (ev : MediaEvent) : M unit :=
  match ev with
  | MTimeupdate =>
      t ← getCurrentTime;
      d ← getDuration;
      p ← isPlaying;
      call (RendererRenderProgress (PrimFloat.div t d) (Some p)) ;;
      emit (EvTimeupdate t)
  | MPlay => emit EvPlay ;; call TimerStart
  | MPause => emit EvPause ;; call TimerStop
  | MEnded => emit EvFinish
  | MSeeking => t ← getCurrentTime; emit (EvSeeking t)
  end.

(** The listener registered by [registerPlugin]. *)
Definition onPluginDestroy (plugin : PluginId) : M unit :=
  update (λ w, set_plugins (filter (λ p, p ≠ plugin) (plugins w)) w).

(** Modelled from the spec: an emitter of event-emitter.ts fires a
    signal, and the handler runs once for every listener attached for
    it. *)
Definition fire (s : Subscription) (handler : M unit) : M unit :=
  w ← this;
  times (length (filter (λ l, l = s) (listeners w))) handler.

(** Modelled from the spec: the plugin's one-shot [destroy] signal of
    base-plugin.ts and event-emitter.ts; a listener attached with [once]
    is released by its first invocation. *)
Definition signalPluginDestroy (p : PluginId) : M unit :=
  w ← this;
  update (set_listeners (filter (λ l, l ≠ SubPluginDestroy p) (listeners w))) ;;
  times (length (filter (λ l, l = SubPluginDestroy p) (listeners w)))
        (onPluginDestroy p).

(** Modelled from the spec: releasing a subscription detaches its
    listener; releasing it again does nothing. *)
Fixpoint detach (s : Subscription) (l : list Subscription) : list Subscription :=
  match l with
  | [] => []
  | x :: l' => if decide (x = s) then l' else x :: detach s l'
  end.

Definition unsubscribe (s : Subscription) : M unit :=
  call (Unsubscribe s) ;;
  update (λ w, set_listeners (detach s (listeners w)) w).

(** [this.subscriptions.push(emitter.on(...))] *)
Definition subscribe (s : Subscription) : M unit :=
  update (λ w, set_listeners (listeners w ++ [s]) w) ;;
  update (λ w, set_subscriptions (subscriptions w ++ [s]) w).

(** ** Public operations *)

(** [setOptions(options)] *)
Definition setOptions (partial : Options) : M unit :=
  update (λ w, set_options (assign (options w) partial) w) ;;
  w ← this;
  call (RendererSetOptions (options w)) ;;
  when (truthy (prop "audioRate" partial))
    (setPlaybackRate (prop "audioRate" partial)).

(** [registerPlugin(plugin)] *)
Definition registerPlugin (plugin : PluginId) : M PluginId :=
  call (PluginInit plugin) ;;
  update (λ w, set_plugins (plugins w ++ [plugin]) w) ;;
  subscribe (SubPluginDestroy plugin) ;;
  mret plugin.

(** [getActivePlugins()] *)
Definition getActivePlugins : M (list PluginId) := w ← this; mret (plugins w).

(** [getDecodedData()] *)
Definition getDecodedData : M (option AudioBuffer) := w ← this; mret (decodedData w).

(** [a || b] on numbers, the right operand evaluated only if needed. *)
Definition orElse (a b : M float) : M float :=
  x ← a;
  if Js.truthy_num x then mret x else b.

(** [new Promise((resolve) => this.onceMediaEvent('loadedmetadata',
    () => resolve(this.getDuration())))].  Modelled from the spec:
    [Player.onceMediaEvent] of player.ts; the signal fires once or never,
    and the player then reports the world's duration. *)
Definition loadedMetadata (env : World) : M float :=
  call PlayerOnceLoadedMetadata ;;
  match metadataDuration env with
  | Some d =>
      update (λ w, set_player {| playing := playing (player w);
                                 currentTime := currentTime (player w);
                                 mediaDuration := d |} w) ;;
      getDuration
  | None => suspend
  end.

(** [duration || this.getDuration() || (await ...) || 0] *)
Definition resolveDuration (env : World) (explicit : option float) : M float :=
  let rest := orElse getDuration (orElse (loadedMetadata env) (mret 0%float)) in
  match explicit with
  | Some x => orElse (mret x) rest
  | None => rest
  end.

(** [this.renderer.render(data)].  Modelled from the spec: [render] of
    renderer.ts draws and fires its [render] signal, as often as the world
    says. *)
Definition render (env : World) (data : AudioBuffer) : M unit :=
  call (RendererRender data) ;;
  times (renders env) (fire (SubRenderer RRender) onRender).

(** The decode branch of [load]. *)
Definition decodeBlob (env : World) (blob : Handle) : M unit :=
  call (BlobArrayBuffer blob) ;;
  buf ← await (arrayBuffer env) ReadFailure;
  w ← this;
  call (DecoderDecode buf (prop "sampleRate" (options w))) ;;
  data ← await (decoded env) DecodeFailure;
  update (set_decodedData (Some data)) ;;
  w ← this;
  match duration w with
  | Some d =>
      when (Js.is_zero d || Js.is_infinity d)
           (update (set_duration (Some (ab_duration data))))
  | None => mret tt
  end.

(** [load(url, channelData, duration)] *)
Definition load (env : World) (url : string) (channelData : option Peaks)
    (explicit : option float) : M unit :=
  p ← isPlaying;
  when (p : bool) pause ;;
  update (set_decodedData None) ;;
  update (set_duration None) ;;
  emit (EvLoad url) ;;
  blob ← match channelData with
         | Some _ => mret None
         | None => b ← fetchBlob env url; mret (Some b)
         end;
  setSrc env url blob ;;
  d ← resolveDuration env explicit;
  update (set_duration (Some d)) ;;
  match channelData, blob with
  | Some peaks, _ =>
      w ← this;
      call (DecoderCreateBuffer peaks (duration w)) ;;
      update (set_decodedData (Some (createBuffer peaks d)))
  | None, Some b => decodeBlob env b
  | None, None => mret tt
  end ;;
  w ← this;
  emit (EvDecode (duration w)) ;;
  match decodedData w with
  | Some data => render env data
  | None => mret tt
  end ;;
  w ← this;
  emit (EvReady (duration w)).

(** [zoom(minPxPerSec)] *)
Definition zoom (minPxPerSec : float) : M unit :=
  w ← this;
  match decodedData w with
  | None => throw (JsError "No audio loaded")
  | Some _ =>
      call (RendererZoom minPxPerSec) ;;
      emit (EvZoom minPxPerSec)
  end.

(** [toggleInteraction(isInteractive)] *)
Definition toggleInteraction (isInteractive : bool) : M unit :=
  update (λ w, set_options (<["interact" := VBool isInteractive]> (options w)) w).

(** [stop()] *)
Definition stop : M unit := pause ;; setTime 0.

(** [skip(seconds)] *)
Definition skip (seconds : float) : M unit :=
  t ← getCurrentTime;
  setTime (PrimFloat.add t seconds).

(** [empty()]: [load('', [[0]], 0.001)] *)
Definition empty (env : World) : M unit :=
  detached (load env "" (Some [[0%float]]) (Some 0x1.0624dd2f1a9fcp-10%float)).

(** Modelled from the spec: a plugin's [destroy()] of base-plugin.ts, which
    may fire the plugin's own [destroy] signal. *)
Definition pluginDestroy (env : World) (p : PluginId) : M unit :=
  call (PluginDestroy p) ;;
  when (signals env p) (signalPluginDestroy p).

(** [destroy()] *)
Definition destroy (env : World) : M unit :=
  emit EvDestroy ;;
  w ← this;
  forEach (plugins w) (pluginDestroy env) ;;
  w ← this;
  forEach (subscriptions w) unsubscribe ;;
  call TimerDestroy ;;
  call RendererDestroy ;;
  call PlayerDestroy.

(** ** Construction *)

(** [initPlayerEvents()] *)
Definition initPlayerEvents : M unit :=
  forEach [MTimeupdate; MPlay; MPause; MEnded; MSeeking] (λ ev, subscribe (SubMedia ev)).

(** [initRendererEvents()] *)
Definition initRendererEvents : M unit :=
  forEach [RClick; RScroll; RRender] (λ ev, subscribe (SubRenderer ev)) ;;
  subscribe (SubRenderer RDrag).

(** [initTimerEvents()] *)
Definition initTimerEvents : M unit := subscribe SubTimerTick.

(** [initPlugins()] *)
Definition initPlugins : M unit :=
  w ← this;
  match prop_plugins "plugins" (options w) with
  | None | Some [] => mret tt
  | Some ps => forEach ps (λ plugin, registerPlugin plugin ;; mret tt)
  end.

(** The url the constructor looks for:
    [options.url || options.media?.currentSrc || options.media?.src]. *)
Definition initialUrl (o : Options) : option string :=
  let media := prop_media "media" o in
  Js.or_ostr (Js.or_ostr (prop_str "url" o) (currentSrc <$> media)) (src <$> media).

(** The field initialisers; the player takes [options.media] or creates
    an element of its own. *)
Definition initial (env : World) (o : Options) : WaveSurfer :=
  {| options := ∅; plugins := []; decodedData := None; duration := None;
     subscriptions := [];
     player := match prop_media "media" o with
               | Some m => playback m
               | None => audio env
               end;
     listeners := [];
     scheduler := {| debounce := None; pending := []; nextHandle := 1 |} |}.

(** The body of the constructor up to the search for a url. *)
Definition setup (o : Options) : M unit :=
  call (NewPlayer (prop "media" o) (prop "autoplay" o) (prop "audioRate" o)) ;;
  update (set_options (assign defaultOptions o)) ;;
  call NewTimer ;;
  w ← this;
  call (NewRenderer (options w)) ;;
  initPlayerEvents ;;
  initRendererEvents ;;
  initTimerEvents ;;
  initPlugins.

(** [new WaveSurfer(options)] *)
Definition constructor (env : World) (o : Options) : M unit :=
  setup o ;;
  w ← this;
  match initialUrl (options w) with
  | Some url =>
      when (Js.truthy_str url)
        (detached (load env url (prop_peaks "peaks" (options w))
                                (prop_num "duration" (options w))))
  | None => mret tt
  end.

(** [WaveSurfer.create(options)] *)
Definition create (env : World) (o : Options) : Run unit :=
  constructor env o (initial env o).

(** ** Reference values

    The resolved duration in the words of the fallback chain: the explicit
    argument when it is truthy, else the duration the player reports once
    the source is set when that is truthy, else the one it reports at
    [loadedmetadata] when that is truthy, else 0; nothing while
    [loadedmetadata] is awaited in vain. *)
Definition priorityDuration (env : World) (explicit : option float) : option float :=
  let fromPlayer :=
    if Js.truthy_num (srcDuration env) then Some (srcDuration env)
    else match metadataDuration env with
         | Some d => Some (if Js.truthy_num d then d else 0%float)
         | None => None
         end in
  match explicit with
  | Some x => if Js.truthy_num x then Some x else fromPlayer
  | None => fromPlayer
  end.

(** The steps of [load] that must find the fields reset: the [load] event,
    the fetch, the source binding, the wait for metadata and the calls
    that produce the decoded data. *)
Definition proceeds (a : Action) : bool :=
  match a with
  | Emit (EvLoad _) | FetchBlob _ _ | PlayerSetSrc _ _ | PlayerOnceLoadedMetadata
  | BlobArrayBuffer _ | DecoderDecode _ _ | DecoderCreateBuffer _ _ => true
  | _ => false
  end.

(** Those of them that come before the duration is resolved. *)
Definition precedesResolution (a : Action) : bool :=
  match a with
  | Emit (EvLoad _) | FetchBlob _ _ | PlayerSetSrc _ _ | PlayerOnceLoadedMetadata => true
  | _ => false
  end.

(** How many listeners are attached for a signal. *)
Definition attached (s : Subscription) (w : WaveSurfer) : nat :=
  length (filter (λ l, l = s) (listeners w)).

(** The url the constructor loads, in words: the [url] option when it is
    a non-empty string, else the [currentSrc] of the media element given
    in the options when that is non-empty, else its [src] when that is
    non-empty. *)
Definition autoloadUrl (o : Options) : option string :=
  let given (x : option string) :=
    match x with
    | Some u => if decide (u = "") then None else Some u
    | None => None
    end in
  match given (prop_str "url" o),
        given (currentSrc <$> prop_media "media" o),
        given (src <$> prop_media "media" o) with
  | Some u, _, _ => Some u
  | None, Some u, _ => Some u
  | None, None, Some u => Some u
  | None, None, None => None
  end.

(** A world in which everything resolves, and an instance at rest. *)
Definition studio : World :=
  {| fetched := Resolved 1;
     srcDuration := 5;
     metadataDuration := Some 5%float;
     arrayBuffer := Resolved 2;
     decoded := Resolved {| ab_duration := 7; ab_channels := None; ab_source := Some 2 |};
     renders := 1;
     signals := λ _, true;
     audio := {| playing := false; currentTime := 0; mediaDuration := nan |} |}.

Definition idle : WaveSurfer := final (create studio ∅).

(** A world in which the fetch is rejected. *)
Definition offline : World :=
  {| fetched := Rejected;
     srcDuration := 5;
     metadataDuration := Some 5%float;
     arrayBuffer := Resolved 2;
     decoded := Resolved {| ab_duration := 7; ab_channels := None; ab_source := Some 2 |};
     renders := 1;
     signals := λ _, true;
     audio := {| playing := false; currentTime := 0; mediaDuration := nan |} |}.

(** * Properties *)

(** ** Running computations *)

Lemma bind_run {A B} (m : M A) (f : A → M B) (w : WaveSurfer) :
  (m ≫= f) w =
  match outcome (m w) with
  | Returned a => extend (trace (m w)) (f a (final (m w)))
  | Threw e => {| outcome := Threw e; final := final (m w); trace := trace (m w) |}
  | Suspended => {| outcome := Suspended; final := final (m w); trace := trace (m w) |}
  end.
Proof. unfold mbind, M_bind. by destruct (m w) as [[a|e|] w' t]. Qed.

Lemma times_run (n : nat) (m : M unit) (w : WaveSurfer) (l : list Entry) :
  m w = {| outcome := Returned tt; final := w; trace := l |} →
  times n m w =
    {| outcome := Returned tt; final := w; trace := mjoin (replicate n l) |}.
Proof.
  intros Hm. induction n as [|n IH]; [reflexivity|].
  simpl. rewrite bind_run, Hm. simpl. rewrite IH. reflexivity.
Qed.

Lemma join_replicate {A} (n k : nat) (x : A) :
  mjoin (replicate n (replicate k x)) = replicate (n * k) x.
Proof.
  induction n as [|n IH]; [reflexivity|].
  simpl. rewrite IH. symmetry. apply replicate_add.
Qed.

Lemma fire_run (s : Subscription) (m : M unit) (w : WaveSurfer) (e : Entry) :
  m w = {| outcome := Returned tt; final := w; trace := [e] |} →
  fire s m w =
    {| outcome := Returned tt; final := w; trace := replicate (attached s w) e |}.
Proof.
  intros Hm. unfold fire. rewrite bind_run. simpl.
  erewrite times_run by exact Hm.
  change [e] with (replicate 1 e). rewrite join_replicate, Nat.mul_1_r. reflexivity.
Qed.

Lemma render_run (env : World) (data : AudioBuffer) (w : WaveSurfer) :
  render env data w =
    {| outcome := Returned tt; final := w;
       trace := {| act := RendererRender data; seen := w |}
                :: replicate (renders env * attached (SubRenderer RRender) w)
                             {| act := Emit EvRedraw; seen := w |} |}.
Proof.
  unfold render. rewrite bind_run. simpl.
  erewrite times_run by (apply fire_run; reflexivity).
  rewrite join_replicate. reflexivity.
Qed.

(** Symbolic execution of [load]: unfold the monad, and split on whatever
    blocks the head of the computation. *)
Ltac exec :=
  cbv [load resolveDuration orElse loadedMetadata getDuration setSrc isPlaying
       pause when decodeBlob fetchBlob await emit call update this throw suspend
       mbind M_bind mret M_ret outcome final trace extend
       set_player set_duration set_decodedData createBuffer
       options plugins decodedData duration subscriptions player listeners
       scheduler playing currentTime mediaDuration];
  rewrite ?render_run;
  cbv [outcome final trace extend]; cbn [app].

Ltac head_scrutinee t :=
  lazymatch t with
  | match ?x with _ => _ end => head_scrutinee x
  | (match ?x with _ => _ end) _ => head_scrutinee x
  | _ => t
  end.

Ltac branch :=
  match goal with
  | |- context [match ?x with _ => _ end] =>
      let s := head_scrutinee x in
      destruct s eqn:?
  end.

Ltac symex := exec; repeat (branch; exec).

Ltac find_entry :=
  repeat first
    [ apply Exists_cons_hd; split_and?; reflexivity
    | apply Exists_cons_tl ].

Lemma float_neq (x y : float) :
  PrimFloat.eqb x y = false → PrimFloat.eqb y y = true → x ≠ y.
Proof. intros Hxy Hyy ->. congruence. Qed.

Lemma redraws_emitted (n : nat) :
  omap event_of (replicate n (Emit EvRedraw)) = replicate n EvRedraw.
Proof. induction n as [|n IH]; [reflexivity|]. cbn. by f_equal. Qed.

(** ** [load] *)

(** C1, as the code has it: the duration [load] resolves is the explicit
    argument when it is truthy (given, non-zero, not NaN), else the
    duration the player reports once the source is set when that is
    truthy, else the one it reports at [loadedmetadata] when that is
    truthy, else 0.  With peaks the load returns with that duration, paired
    with the peaks in the decoded data; without peaks it is the value of
    [duration] when the fetched blob is read for decoding.  When no
    earlier source is usable and [loadedmetadata] never fires, the load
    stays suspended with [duration] still null. *)
Theorem load_duration_priority (env : World) (url : string)
    (channelData : option Peaks) (explicit : option float) (w : WaveSurfer) :
  let r := load env url channelData explicit w in
  match channelData, fetched env with
  | Some p, _ =>
      match priorityDuration env explicit with
      | Some d =>
          outcome r = Returned tt ∧ duration (final r) = Some d ∧
          decodedData (final r) = Some (createBuffer p d)
      | None => outcome r = Suspended ∧ duration (final r) = None
      end
  | None, Resolved blob =>
      match priorityDuration env explicit with
      | Some d =>
          Exists (λ e, act e = BlobArrayBuffer blob ∧ duration (seen e) = Some d)
                 (trace r)
      | None => outcome r = Suspended ∧ duration (final r) = None
      end
  | None, _ => outcome r ≠ Returned tt ∧ duration (final r) = None
  end.
Proof.
  intros r. subst r. unfold priorityDuration. symex.
  all: first [ by split_and! | by find_entry ].
Qed.

(** C1, as stated, fails: an explicit duration of 0 is not used.  With
    peaks, an explicit duration of 0 and a player that reports 5 seconds,
    the load resolves 5, not 0. *)
Lemma explicit_zero_is_not_used :
  let r := load studio "demo.wav" (Some [[0%float]]) (Some 0%float) idle in
  outcome r = Returned tt ∧
  duration (final r) = Some 5%float ∧
  duration (final r) ≠ Some 0%float.
Proof.
  vm_compute. split_and!; [reflexivity..|].
  intros H. apply (float_neq 5 0); [reflexivity..|congruence].
Qed.

(** C2: when a decode occurred (no peaks, and fetch, read and decode all
    resolved), a resolved duration that is [=== 0] or [=== Infinity] is
    replaced by the decoded data's own duration, and any other resolved
    duration is kept; with peaks the resolved duration is kept whatever it
    is.  When the blob was fetched but not decoded the resolved duration
    also stays, and no decoded data is set. *)
Theorem decode_corrects_duration (env : World) (url : string)
    (channelData : option Peaks) (explicit : option float) (w : WaveSurfer) :
  let r := load env url channelData explicit w in
  match priorityDuration env explicit with
  | Some d =>
      match channelData with
      | Some _ => outcome r = Returned tt ∧ duration (final r) = Some d
      | None =>
          match fetched env, arrayBuffer env, decoded env with
          | Resolved _, Resolved _, Resolved data =>
              outcome r = Returned tt ∧
              decodedData (final r) = Some data ∧
              duration (final r) =
                Some (if Js.is_zero d || Js.is_infinity d then ab_duration data else d)
          | Resolved _, _, _ =>
              outcome r ≠ Returned tt ∧
              decodedData (final r) = None ∧
              duration (final r) = Some d
          | _, _, _ => outcome r ≠ Returned tt ∧ duration (final r) = None
          end
      end
  | None => outcome r ≠ Returned tt
  end.
Proof.
  intros r. subst r. unfold priorityDuration. symex.
  all: try by split_and!.
  all: repeat match goal with
       | H : context [Js.is_zero 0] |- _ => vm_compute in H
       | |- context [Js.is_zero 0] => vm_compute (Js.is_zero 0)
       end; try discriminate.
  all: try by split_and!.
Qed.

(** C3: a [load] that returns has emitted [load(url)], then
    [decode(duration)], then [ready(duration)], each once and in this
    order, with the final duration as payload; the only other events of
    the call are the renderer's redraws, between [decode] and [ready]. *)
Theorem load_event_order (env : World) (url : string)
    (channelData : option Peaks) (explicit : option float) (w : WaveSurfer) :
  let r := load env url channelData explicit w in
  outcome r = Returned tt →
  ∃ k, emitted r =
         EvLoad url :: EvDecode (duration (final r)) ::
         replicate k EvRedraw ++ [EvReady (duration (final r))].
Proof.
  intros r. subst r. symex.
  all: intros Hret; try discriminate Hret.
  all: eexists; cbn [fmap list_fmap omap list_omap act event_of].
  all: rewrite fmap_app, fmap_replicate, omap_app, redraws_emitted.
  all: reflexivity.
Qed.

(** C3 at work: a load without peaks in a world where everything
    resolves returns, and its events are in the stated order. *)
Lemma load_event_order_witness :
  let r := load studio "demo.wav" None None idle in
  outcome r = Returned tt ∧
  ∃ k, emitted r =
         EvLoad "demo.wav" :: EvDecode (duration (final r)) ::
         replicate k EvRedraw ++ [EvReady (duration (final r))].
Proof.
  split; [reflexivity|].
  apply (load_event_order studio "demo.wav" None None idle). reflexivity.
Defined.

(** C4: [load] resets [decodedData] and [duration] before it proceeds.
    The [load] event, the fetch, the source binding and the wait for
    metadata all find both fields null, and the calls that produce the
    decoded data still find [decodedData] null.  At the end [decodedData]
    is set by exactly one of the two ways: from the peaks when they were
    supplied (and the duration was resolved), from the decoder when a
    decode completed, and is null otherwise.  Nothing of the call, apart
    from the state the initial [pause] call is made in, depends on the
    values the two fields had before. *)
Theorem load_resets_fields (env : World) (url : string)
    (channelData : option Peaks) (explicit : option float) (w : WaveSurfer) :
  let r := load env url channelData explicit w in
  Forall (λ e,
      (proceeds (act e) = true → decodedData (seen e) = None) ∧
      (precedesResolution (act e) = true → duration (seen e) = None))
    (trace r) ∧
  decodedData (final r) =
    match channelData with
    | Some p => createBuffer p <$> priorityDuration env explicit
    | None =>
        match fetched env, priorityDuration env explicit,
              arrayBuffer env, decoded env with
        | Resolved _, Some _, Resolved _, Resolved data => Some data
        | _, _, _, _ => None
        end
    end ∧
  ∀ data0 duration0,
    let r0 := load env url channelData explicit
                (set_decodedData data0 (set_duration duration0 w)) in
    outcome r0 = outcome r ∧
    actions r0 = actions r ∧
    decodedData (final r0) = decodedData (final r) ∧
    duration (final r0) = duration (final r).
Proof.
  intros r. subst r. split_and!.
  - symex.
    all: repeat first
      [ apply Forall_nil
      | apply Forall_cons; split
      | apply Forall_app; split
      | apply Forall_replicate ].
    all: by cbv [proceeds precedesResolution act seen decodedData duration].
  - unfold priorityDuration. symex. all: reflexivity.
  - intros data0 duration0 r0. subst r0. symex.
    all: by split_and!.
Qed.

(** ** Sequencing *)

Lemma extend_outcome {A} (t : list Entry) (r : Run A) : outcome (extend t r) = outcome r.
Proof. by destruct r. Qed.

Lemma extend_final {A} (t : list Entry) (r : Run A) : final (extend t r) = final r.
Proof. by destruct r. Qed.

Lemma extend_trace {A} (t : list Entry) (r : Run A) : trace (extend t r) = t ++ trace r.
Proof. by destruct r. Qed.

Lemma bind_returned {A B} (m : M A) (f : A → M B) (w : WaveSurfer) (a : A) :
  outcome (m w) = Returned a →
  outcome ((m ≫= f) w) = outcome (f a (final (m w))) ∧
  final ((m ≫= f) w) = final (f a (final (m w))) ∧
  trace ((m ≫= f) w) = trace (m w) ++ trace (f a (final (m w))).
Proof.
  intros Hm. rewrite bind_run, Hm.
  by rewrite extend_outcome, extend_final, extend_trace.
Qed.

Lemma bind_this {B} (f : WaveSurfer → M B) (w : WaveSurfer) :
  (this ≫= f) w = f w w.
Proof. unfold mbind, M_bind, this. by destruct (f w w). Qed.

(** ** [zoom] *)

(** C5: [zoom] without decoded data throws "No audio loaded" and does
    nothing else (no renderer call, no event); with decoded data it
    returns, leaves the instance as it was, and its only actions are the
    renderer's [zoom] followed by the [zoom] event, so no decode. *)
Theorem zoom_needs_decoded_data (minPxPerSec : float) (w : WaveSurfer) :
  match decodedData w with
  | None =>
      zoom minPxPerSec w =
        {| outcome := Threw (JsError "No audio loaded"); final := w; trace := [] |}
  | Some _ =>
      outcome (zoom minPxPerSec w) = Returned tt ∧
      final (zoom minPxPerSec w) = w ∧
      actions (zoom minPxPerSec w) =
        [RendererZoom minPxPerSec; Emit (EvZoom minPxPerSec)]
  end.
Proof.
  unfold zoom. rewrite bind_this.
  destruct (decodedData w); [split_and!|]; reflexivity.
Qed.

(** ** Plugins *)

Lemma filter_idemp {A} (P : A → Prop) `{∀ x, Decision (P x)} (l : list A) :
  filter P (filter P l) = filter P l.
Proof.
  induction l as [|x l IH]; [reflexivity|].
  rewrite filter_cons. destruct (decide (P x)) as [Hx|Hx]; [|exact IH].
  rewrite filter_cons, decide_True by exact Hx. by rewrite IH.
Qed.

Lemma filter_none {A} (s : A) `{EqDecision A} (l : list A) :
  filter (λ x, x = s) (filter (λ x, x ≠ s) l) = [].
Proof.
  induction l as [|x l IH]; [reflexivity|].
  rewrite filter_cons. destruct (decide (x ≠ s)) as [Hx|Hx]; [|exact IH].
  rewrite filter_cons, decide_False by exact Hx. exact IH.
Qed.

Lemma filter_count_zero {A} (s : A) `{EqDecision A} (l : list A) :
  length (filter (λ x, x = s) l) = 0 ↔ s ∉ l.
Proof.
  induction l as [|x l IH].
  { split; [intros _; apply not_elem_of_nil | reflexivity]. }
  rewrite filter_cons, not_elem_of_cons.
  destruct (decide (x = s)) as [->|Hx]; simpl; [|by intuition].
  split; [discriminate | by intros []].
Qed.

(** Removing a plugin any positive number of times removes it once. *)
Lemma times_onPluginDestroy (n : nat) (p : PluginId) (w : WaveSurfer) :
  times n (onPluginDestroy p) w =
    {| outcome := Returned tt;
       final := match n with
                | O => w
                | S _ => set_plugins (filter (λ q, q ≠ p) (plugins w)) w
                end;
       trace := [] |}.
Proof.
  revert w. induction n as [|n IH]; intros w; [reflexivity|].
  simpl. rewrite bind_run. simpl. rewrite IH.
  destruct n; simpl; [reflexivity|].
  by rewrite filter_idemp.
Qed.

Lemma signalPluginDestroy_run (p : PluginId) (w : WaveSurfer) :
  signalPluginDestroy p w =
    {| outcome := Returned tt;
       final :=
         (let w' := set_listeners
                      (filter (λ l, l ≠ SubPluginDestroy p) (listeners w)) w in
          match attached (SubPluginDestroy p) w with
          | O => w'
          | S _ => set_plugins (filter (λ q, q ≠ p) (plugins w)) w'
          end);
       trace := [] |}.
Proof.
  unfold signalPluginDestroy. rewrite !bind_run. simpl.
  rewrite bind_run. simpl. rewrite times_onPluginDestroy. reflexivity.
Qed.

(** C6: [registerPlugin] calls the plugin's [init] on this instance,
    appends the plugin to the active plugins, attaches a one-shot listener
    to its [destroy] signal and returns the plugin.  When the signal fires
    the plugin is filtered out of the active plugins, the others keep
    their order, and the listener is released, so that the signal firing
    again finds no listener and changes nothing; the removal itself, run
    a second time, changes nothing either. *)
Theorem registerPlugin_lifecycle (plugin : PluginId) (w : WaveSurfer) :
  let r := registerPlugin plugin w in
  outcome r = Returned plugin ∧
  trace r = [ {| act := PluginInit plugin; seen := w |} ] ∧
  getActivePlugins (final r) =
    {| outcome := Returned (plugins w ++ [plugin]); final := final r; trace := [] |} ∧
  SubPluginDestroy plugin ∈ listeners (final r) ∧
  plugins (final (signalPluginDestroy plugin (final r))) =
    filter (λ q, q ≠ plugin) (plugins w) ∧
  (plugin ∉ plugins (final (signalPluginDestroy plugin (final r)))) ∧
  (∀ w' : WaveSurfer,
    let fired := signalPluginDestroy plugin w' in
    let removed := onPluginDestroy plugin w' in
    (plugins (final fired) =
      (if bool_decide (SubPluginDestroy plugin ∈ listeners w')
       then filter (λ q, q ≠ plugin) (plugins w')
       else plugins w')) ∧
    (SubPluginDestroy plugin ∉ listeners (final fired)) ∧
    (signalPluginDestroy plugin (final fired) =
      {| outcome := Returned tt; final := final fired; trace := [] |}) ∧
    (onPluginDestroy plugin (final removed) =
      {| outcome := Returned tt; final := final removed; trace := [] |})).
Proof.
  intros r. subst r.
  assert (Hfired : plugins (final (signalPluginDestroy plugin
                      (final (registerPlugin plugin w)))) =
                   filter (λ q, q ≠ plugin) (plugins w)).
  { rewrite signalPluginDestroy_run. unfold attached. simpl.
    rewrite filter_app, length_app, (filter_cons_True _ _ []) by done.
    rewrite Nat.add_comm. simpl.
    rewrite filter_app, (filter_cons_False _ _ []) by (by intros ?).
    apply app_nil_r. }
  split_and!; try reflexivity.
  - simpl. set_solver.
  - exact Hfired.
  - rewrite Hfired, list_elem_of_filter. by intros [Hne _].
  - intros w' fired removed. subst fired removed.
    rewrite signalPluginDestroy_run. split_and!.
    + destruct (attached (SubPluginDestroy plugin) w') as [|n] eqn:Hn;
        unfold attached in Hn; simpl.
      * apply (proj1 (filter_count_zero _ _)) in Hn.
        by rewrite bool_decide_eq_false_2.
      * rewrite bool_decide_eq_true_2; [reflexivity|].
        destruct (decide (SubPluginDestroy plugin ∈ listeners w')) as [|Hno]; [done|].
        apply (proj2 (filter_count_zero _ _)) in Hno.
        rewrite Hno in Hn. discriminate Hn.
    + assert (Hgone : SubPluginDestroy plugin ∉
                filter (λ l, l ≠ SubPluginDestroy plugin) (listeners w')).
      { rewrite list_elem_of_filter. by intros [Hne _]. }
      by destruct (attached (SubPluginDestroy plugin) w').
    + rewrite signalPluginDestroy_run. unfold attached.
      destruct (length (filter _ (listeners w'))); simpl;
        rewrite filter_none, filter_idemp; reflexivity.
    + unfold onPluginDestroy, update. simpl. by rewrite filter_idemp.
Qed.

(** ** [destroy] *)

Lemma pluginDestroy_run (env : World) (p : PluginId) (w : WaveSurfer) :
  outcome (pluginDestroy env p w) = Returned tt ∧
  trace (pluginDestroy env p w) = [ {| act := PluginDestroy p; seen := w |} ] ∧
  subscriptions (final (pluginDestroy env p w)) = subscriptions w.
Proof.
  unfold pluginDestroy. rewrite bind_run. simpl.
  destruct (signals env p); simpl; [|done].
  rewrite signalPluginDestroy_run. simpl.
  by destruct (attached (SubPluginDestroy p) w).
Qed.

Lemma forEach_pluginDestroy (env : World) (l : list PluginId) (w : WaveSurfer) :
  outcome (forEach l (pluginDestroy env) w) = Returned tt ∧
  actions (forEach l (pluginDestroy env) w) = PluginDestroy <$> l ∧
  subscriptions (final (forEach l (pluginDestroy env) w)) = subscriptions w.
Proof.
  revert w. induction l as [|p l IH]; intros w; [done|].
  destruct (pluginDestroy_run env p w) as (Ho & Ht & Hs).
  destruct (IH (final (pluginDestroy env p w))) as (Ho' & Ht' & Hs').
  simpl.
  destruct (bind_returned (pluginDestroy env p)
              (λ _, forEach l (pluginDestroy env)) w tt Ho) as (-> & -> & ->).
  rewrite Ht, fmap_app, Ht'. simpl. by rewrite Hs', Hs.
Qed.

Lemma forEach_unsubscribe (l : list Subscription) (w : WaveSurfer) :
  outcome (forEach l unsubscribe w) = Returned tt ∧
  actions (forEach l unsubscribe w) = Unsubscribe <$> l.
Proof.
  revert w. induction l as [|s l IH]; intros w; [done|].
  simpl.
  edestruct (bind_returned (unsubscribe s) (λ _, forEach l unsubscribe) w tt)
    as (-> & _ & ->); [reflexivity|].
  destruct (IH (final (unsubscribe s w))) as (-> & Ht).
  by rewrite fmap_app, Ht.
Qed.

(** C7: [destroy] returns after exactly these actions, in this order: the
    [destroy] event, emitted while the instance is still as it was (so a
    listener still finds every registered plugin in [getActivePlugins()]);
    [destroy()] on every plugin registered at that moment, in
    registration order; the release of every held subscription; then the
    timer's, the renderer's and finally the media player's [destroy]. *)
Theorem destroy_order (env : World) (w : WaveSurfer) :
  let r := destroy env w in
  outcome r = Returned tt ∧
  head (trace r) = Some {| act := Emit EvDestroy; seen := w |} ∧
  actions r =
    Emit EvDestroy ::
    (PluginDestroy <$> plugins w) ++
    (Unsubscribe <$> subscriptions w) ++
    [TimerDestroy; RendererDestroy; PlayerDestroy].
Proof.
  intros r. subst r. unfold destroy.
  destruct (forEach_pluginDestroy env (plugins w) w) as (Hp & Hpa & Hps).
  set (w1 := final (forEach (plugins w) (pluginDestroy env) w)) in *.
  destruct (forEach_unsubscribe (subscriptions w1) w1) as (Hu & Hua).
  rewrite bind_run. simpl.
  rewrite bind_run. simpl.
  rewrite bind_run, Hp. fold w1.
  rewrite (bind_run this). simpl.
  rewrite (bind_run (forEach (subscriptions w1) unsubscribe)), Hu.
  rewrite !extend_outcome, !extend_trace. simpl.
  split_and!; [reflexivity..|].
  rewrite !fmap_app, Hpa, Hua, Hps. reflexivity.
Qed.

(** ** Options *)

Lemma assign_lookup (base over : Options) (k : string) :
  assign base over !! k =
    match over !! k with
    | Some v => Some v
    | None => base !! k
    end.
Proof.
  unfold assign. rewrite lookup_union.
  by destruct (over !! k), (base !! k).
Qed.

(** C8, as the code has it: [setOptions] replaces the configuration by
    the shallow merge of the partial options over the current ones (a key
    of the partial options takes its value from them, every other key
    keeps its value), passes the merged configuration to the renderer,
    and then applies [audioRate] to the media player exactly when the
    partial options carry a truthy [audioRate] (given, non-zero, not
    NaN). *)
Theorem setOptions_merges (partial : Options) (w : WaveSurfer) :
  let r := setOptions partial w in
  outcome r = Returned tt ∧
  (∀ k, options (final r) !! k =
          match partial !! k with
          | Some v => Some v
          | None => options w !! k
          end) ∧
  actions r =
    RendererSetOptions (options (final r)) ::
    (if truthy (prop "audioRate" partial)
     then [PlayerSetPlaybackRate (prop "audioRate" partial)]
     else []).
Proof.
  intros r. subst r. unfold setOptions, setPlaybackRate.
  rewrite !bind_run. simpl. rewrite !bind_run. simpl.
  destruct (truthy (prop "audioRate" partial)); simpl.
  all: split_and!; [reflexivity | apply assign_lookup | reflexivity].
Qed.

(** C8, as stated, fails: changing [audioRate] from 2 to 0 changes the
    configuration, yet the only action is the renderer's [setOptions]; no
    playback rate is applied to the media player. *)
Lemma audioRate_zero_is_not_applied :
  let w := final (setOptions {[ "audioRate" := VNum 2 ]} idle) in
  let r := setOptions {[ "audioRate" := VNum 0 ]} w in
  prop "audioRate" (options w) = VNum 2 ∧
  prop "audioRate" (options (final r)) = VNum 0 ∧
  actions r = [RendererSetOptions (options (final r))] ∧
  Forall (λ a, ∀ rate, a ≠ PlayerSetPlaybackRate rate) (actions r).
Proof.
  cbv zeta. split_and!; [reflexivity..|].
  constructor; [|constructor]. intros rate. discriminate.
Qed.

(** ** Interaction *)

Lemma times_skip (n : nat) (m : M unit) (w : WaveSurfer) :
  m w = {| outcome := Returned tt; final := w; trace := [] |} →
  times n m w = {| outcome := Returned tt; final := w; trace := [] |}.
Proof.
  intros Hm. rewrite (times_run n m w []) by exact Hm.
  do 2 f_equal. induction n as [|n IH]; [reflexivity|exact IH].
Qed.

Lemma interactive_toggle (b : bool) (w : WaveSurfer) :
  interactive (final (toggleInteraction b w)) = b.
Proof.
  unfold interactive, prop. simpl. by rewrite lookup_insert_eq.
Qed.

Ltac handle :=
  cbv [onClick onDrag seekTo setTime getCurrentTime getDuration isPlaying
       clearDebounce setDebounce when emit call update this
       mbind M_bind mret M_ret outcome final trace extend
       set_player set_scheduler
       options plugins decodedData duration subscriptions player listeners
       scheduler playing currentTime mediaDuration debounce pending nextHandle];
  cbn [app fmap list_fmap act default].

Lemma handlers_disabled (relativeX : float) (s : WaveSurfer) :
  interactive s = false →
  onClick relativeX s = {| outcome := Returned tt; final := s; trace := [] |} ∧
  onDrag relativeX s = {| outcome := Returned tt; final := s; trace := [] |}.
Proof.
  intros Hs. unfold onClick, onDrag. rewrite !bind_run. simpl.
  by rewrite Hs.
Qed.

Lemma handlers_enabled (relativeX : float) (s : WaveSurfer) :
  interactive s = true →
  let d := default (mediaDuration (player s)) (duration s) in
  outcome (onClick relativeX s) = Returned tt ∧
  actions (onClick relativeX s) =
    [ PlayerSetTime (PrimFloat.mul d relativeX);
      Emit (EvInteraction (PrimFloat.mul d relativeX));
      Emit (EvClick relativeX) ] ∧
  outcome (onDrag relativeX s) = Returned tt ∧
  actions (onDrag relativeX s) =
    [ RendererRenderProgress relativeX None;
      ClearTimeout (debounce (scheduler s));
      SetTimeout (nextHandle (scheduler s)) relativeX
                 (if playing (player s) then 0 else 200);
      Emit (EvInteraction (PrimFloat.mul relativeX d));
      Emit (EvDrag relativeX) ].
Proof.
  intros Hs d. subst d.
  unfold onClick at 1 2, onDrag at 1 2. rewrite !(bind_run this). simpl.
  rewrite Hs. simpl.
  destruct s as [o ps dd du subs [pl ct md] ls [db pe nh]].
  handle. by destruct du, pl.
Qed.

(** C10: after [toggleInteraction(false)] a click or a drag coming from
    the renderer does nothing at all: the handlers return without any
    action (no seek, no progress update, no scheduled seek, no event) and
    leave the instance unchanged.  After [toggleInteraction(true)] a click
    seeks and emits [interaction] and [click]; a drag updates the progress,
    clears the pending seek, schedules a new one (at once when playing,
    after 200 ms otherwise) and emits [interaction] and [drag]. *)
Theorem toggleInteraction_gates_handlers (relativeX : float) (w : WaveSurfer) :
  let off := final (toggleInteraction false w) in
  let on := final (toggleInteraction true off) in
  let unchanged := {| outcome := Returned tt; final := off; trace := [] |} in
  let d := default (mediaDuration (player on)) (duration on) in
  onClick relativeX off = unchanged ∧
  onDrag relativeX off = unchanged ∧
  fire (SubRenderer RClick) (onClick relativeX) off = unchanged ∧
  fire (SubRenderer RDrag) (onDrag relativeX) off = unchanged ∧
  outcome (onClick relativeX on) = Returned tt ∧
  actions (onClick relativeX on) =
    [ PlayerSetTime (PrimFloat.mul d relativeX);
      Emit (EvInteraction (PrimFloat.mul d relativeX));
      Emit (EvClick relativeX) ] ∧
  outcome (onDrag relativeX on) = Returned tt ∧
  actions (onDrag relativeX on) =
    [ RendererRenderProgress relativeX None;
      ClearTimeout (debounce (scheduler on));
      SetTimeout (nextHandle (scheduler on)) relativeX
                 (if playing (player on) then 0 else 200);
      Emit (EvInteraction (PrimFloat.mul relativeX d));
      Emit (EvDrag relativeX) ].
Proof.
  intros off on unchanged d.
  destruct (handlers_disabled relativeX off) as (Hclick & Hdrag);
    [apply interactive_toggle|].
  destruct (handlers_enabled relativeX on) as (? & ? & ? & ?);
    [apply interactive_toggle|].
  split_and!; try done.
  - unfold fire. rewrite bind_run. simpl. by rewrite (times_skip _ _ off).
  - unfold fire. rewrite bind_run. simpl. by rewrite (times_skip _ _ off).
Qed.


(** ** Construction *)

Lemma forEach_subscribe {A} (l : list A) (f : A → Subscription) (w : WaveSurfer) :
  forEach l (λ x, subscribe (f x)) w =
    {| outcome := Returned tt;
       final := set_subscriptions (subscriptions w ++ (f <$> l))
                  (set_listeners (listeners w ++ (f <$> l)) w);
       trace := [] |}.
Proof.
  revert w. induction l as [|x l IH]; intros w.
  - simpl. rewrite !app_nil_r. by destruct w.
  - simpl. rewrite bind_run. simpl. rewrite IH. simpl.
    by rewrite <- !app_assoc.
Qed.

Lemma forEach_registerPlugin (l : list PluginId) (w : WaveSurfer) :
  let r := forEach l (λ plugin, registerPlugin plugin ;; mret tt) w in
  outcome r = Returned tt ∧
  actions r = PluginInit <$> l ∧
  options (final r) = options w ∧
  decodedData (final r) = decodedData w.
Proof.
  revert w. induction l as [|p l IH]; intros w; [done|].
  cbn [forEach].
  set (w1 := final ((registerPlugin p ;; mret tt) w)).
  destruct (IH w1) as (Ho & Ha & Hopt & Hdd).
  rewrite bind_run.
  change (outcome ((registerPlugin p ;; mret tt) w)) with (Returned tt).
  cbv iota. fold w1.
  rewrite extend_outcome, extend_final, extend_trace, fmap_app, Ho, Ha, Hopt, Hdd.
  done.
Qed.

Lemma initPlugins_run (w : WaveSurfer) :
  outcome (initPlugins w) = Returned tt ∧
  actions (initPlugins w) =
    PluginInit <$> default [] (prop_plugins "plugins" (options w)) ∧
  options (final (initPlugins w)) = options w ∧
  decodedData (final (initPlugins w)) = decodedData w.
Proof.
  unfold initPlugins. rewrite bind_run. cbn [this outcome final trace].
  rewrite extend_outcome, extend_final, extend_trace. cbn [app].
  destruct (prop_plugins "plugins" (options w)) as [[|p ps]|]; [done| |done].
  apply (forEach_registerPlugin (p :: ps) w).
Qed.

Lemma setup_run (o : Options) (w : WaveSurfer) :
  outcome (setup o w) = Returned tt ∧
  options (final (setup o w)) = assign defaultOptions o ∧
  decodedData (final (setup o w)) = decodedData w ∧
  actions (setup o w) =
    [ NewPlayer (prop "media" o) (prop "autoplay" o) (prop "audioRate" o);
      NewTimer;
      NewRenderer (assign defaultOptions o) ] ++
    (PluginInit <$> default [] (prop_plugins "plugins" (assign defaultOptions o))).
Proof.
  cbv [setup initPlayerEvents initRendererEvents initTimerEvents forEach
       subscribe call update this mbind M_bind mret M_ret extend
       outcome final trace set_options set_listeners set_subscriptions
       options plugins decodedData duration subscriptions player listeners
       scheduler].
  match goal with
  | |- context [initPlugins ?w0] =>
      destruct (initPlugins_run w0) as (Ho & Ha & Hopt & Hdd);
      destruct (initPlugins w0) as [oc wf tr]
  end.
  cbn in Ho, Ha, Hopt, Hdd. cbn [app fmap list_fmap act].
  rewrite Ho, Ha. destruct wf. cbn in Hopt, Hdd. by subst.
Qed.

Lemma prop_not_defaulted (k : string) (o : Options) :
  defaultOptions !! k = None → prop k (assign defaultOptions o) = prop k o.
Proof.
  intros Hk. unfold prop. rewrite assign_lookup, Hk. by destruct (o !! k).
Qed.

Lemma detached_run (m : M unit) (w : WaveSurfer) :
  detached m w =
    {| outcome := Returned tt; final := final (m w); trace := trace (m w) |}.
Proof. reflexivity. Qed.

Lemma load_emits_load (env : World) (url : string) (channelData : option Peaks)
    (explicit : option float) (w : WaveSurfer) :
  Exists (λ e, act e = Emit (EvLoad url)) (trace (load env url channelData explicit w)).
Proof. symex. all: find_entry. Qed.

Lemma initialUrl_autoload (o : Options) :
  match autoloadUrl o with
  | Some url => initialUrl o = Some url ∧ Js.truthy_str url = true
  | None => Js.truthy_ostr (initialUrl o) = false
  end.
Proof.
  unfold autoloadUrl, initialUrl, Js.or_ostr, Js.truthy_ostr, Js.truthy_str.
  destruct (prop_str "url" o) as [u|], (prop_media "media" o) as [[c s p]|];
    simpl; repeat case_decide; simpl; repeat case_decide; try done.
Qed.

(** What the constructor does once the setup has run, for whatever it
    starts when it has found a url. *)
Lemma autoload_tail (k : string → option Peaks → option float → M unit)
    (ts : list Entry) (ws : WaveSurfer) (cd : option Peaks) (ex : option float)
    (found chosen : option string) :
  match chosen with
  | Some url => found = Some url ∧ Js.truthy_str url = true
  | None => Js.truthy_ostr found = false
  end →
  (∀ url w, Exists (λ e, act e = Emit (EvLoad url)) (trace (k url cd ex w))) →
  Forall (λ a, proceeds a = false) (act <$> ts) →
  decodedData ws = None →
  let r := extend ts
             (match found with
              | Some url => when (Js.truthy_str url) (detached (k url cd ex))
              | None => mret tt
              end ws) in
  outcome r = Returned tt ∧
  match chosen with
  | Some url =>
      let l := k url cd ex ws in
      trace r = ts ++ trace l ∧
      final r = final l ∧
      Exists (λ e, act e = Emit (EvLoad url)) (trace r)
  | None =>
      trace r = ts ∧
      final r = ws ∧
      Forall (λ a, proceeds a = false) (actions r) ∧
      decodedData (final r) = None
  end.
Proof.
  intros Hfound Hk Hts Hws r. subst r.
  rewrite extend_outcome, extend_final, extend_trace.
  destruct chosen as [url|].
  - destruct Hfound as [-> Htruthy]. rewrite Htruthy. unfold when.
    rewrite detached_run. cbn [outcome final trace].
    split_and!; [reflexivity..|].
    apply Exists_app. right. apply Hk.
  - assert (Hskip : match found with
                    | Some url => when (Js.truthy_str url) (detached (k url cd ex))
                    | None => mret tt
                    end ws =
                    {| outcome := Returned tt; final := ws; trace := [] |}).
    { destruct found as [u|]; [|reflexivity]. simpl in Hfound. by rewrite Hfound. }
    rewrite Hskip. cbn [outcome final trace]. rewrite (app_nil_r ts).
    split_and!; [reflexivity..|exact Hts|exact Hws].
Qed.

Lemma autoload_run (k : string → option Peaks → option float → M unit)
    (o : Options) (w0 : WaveSurfer) :
  (∀ url cd ex w, Exists (λ e, act e = Emit (EvLoad url)) (trace (k url cd ex w))) →
  decodedData w0 = None →
  let r := (setup o ;;
            w ← this;
            match initialUrl (options w) with
            | Some url =>
                when (Js.truthy_str url)
                  (detached (k url (prop_peaks "peaks" (options w))
                                   (prop_num "duration" (options w))))
            | None => mret tt
            end) w0 in
  outcome r = Returned tt ∧
  match autoloadUrl o with
  | Some url =>
      let l := k url (prop_peaks "peaks" o) (prop_num "duration" o)
                 (final (setup o w0)) in
      trace r = trace (setup o w0) ++ trace l ∧
      final r = final l ∧
      Exists (λ e, act e = Emit (EvLoad url)) (trace r)
  | None =>
      trace r = trace (setup o w0) ∧
      final r = final (setup o w0) ∧
      Forall (λ a, proceeds a = false) (actions r) ∧
      decodedData (final r) = None
  end.
Proof.
  intros Hk Hw0 r. subst r.
  destruct (setup_run o w0) as (Ho & Hopt & Hdd & Ha).
  rewrite Hw0 in Hdd.
  rewrite bind_run, Ho, bind_this, Hopt.
  assert (Hurl : initialUrl (assign defaultOptions o) = initialUrl o).
  { unfold initialUrl, prop_str, prop_media. by rewrite !prop_not_defaulted. }
  assert (Hpeaks : prop_peaks "peaks" (assign defaultOptions o) = prop_peaks "peaks" o).
  { unfold prop_peaks. by rewrite prop_not_defaulted. }
  assert (Hdur : prop_num "duration" (assign defaultOptions o) = prop_num "duration" o).
  { unfold prop_num. by rewrite prop_not_defaulted. }
  rewrite Hurl, Hpeaks, Hdur.
  apply (autoload_tail k (trace (setup o w0)) (final (setup o w0))
           (prop_peaks "peaks" o) (prop_num "duration" o)
           (initialUrl o) (autoloadUrl o)).
  - apply initialUrl_autoload.
  - intros url w. apply Hk.
  - rewrite Ha. apply Forall_app. split.
    + by repeat constructor.
    + apply Forall_fmap, Forall_true. done.
  - exact Hdd.
Qed.

(** C9: the constructor returns, and after its setup it starts [load]
    with the [url] option when that is a non-empty string, else with the
    given media element's [currentSrc], else with its [src], passing the
    [peaks] and [duration] options; the constructor's actions are those
    of the setup followed by those of that load, the [load] event among
    them.  With no non-empty url, [currentSrc] or [src] it does the setup
    only: no [load] event, no fetch, no source binding, no decoding, and
    [decodedData] stays null. *)
Theorem constructor_autoload (env : World) (o : Options) :
  let s := setup o (initial env o) in
  let r := create env o in
  outcome r = Returned tt ∧
  match autoloadUrl o with
  | Some url =>
      let l := load env url (prop_peaks "peaks" o) (prop_num "duration" o)
                 (final s) in
      trace r = trace s ++ trace l ∧
      final r = final l ∧
      Exists (λ e, act e = Emit (EvLoad url)) (trace r)
  | None =>
      trace r = trace s ∧
      final r = final s ∧
      Forall (λ a, proceeds a = false) (actions r) ∧
      decodedData (final r) = None
  end.
Proof.
  intros s r. subst r s. unfold create, constructor.
  apply (autoload_run (load env) o (initial env o) (load_emits_load env)).
  reflexivity.
Qed.

(** * Further properties *)

(** ** What [load] leaves alone, and how it ends *)

Lemma load_frame (env : World) (url : string) (channelData : option Peaks)
    (explicit : option float) (w : WaveSurfer) :
  let r := load env url channelData explicit w in
  options (final r) = options w ∧
  plugins (final r) = plugins w ∧
  subscriptions (final r) = subscriptions w ∧
  listeners (final r) = listeners w ∧
  scheduler (final r) = scheduler w.
Proof. intros r. subst r. symex. all: by split_and!. Qed.

(** X1: [load] changes nothing but the decoded data, the duration and
    the media player: whatever the collaborators answer, and whether it
    returns, throws or stays suspended, the options, the registered
    plugins, the held subscriptions, the attached listeners and the
    pending debounced seek are afterwards what they were before. *)


(** X2: a [load] that does not return (a rejected fetch, read or decode,
    or a wait that never ends) has emitted the [load] event and no other
    event (no [decode], no [ready], no [redraw]), has not called the
    renderer's [render], and leaves [decodedData] null, also when audio
    was loaded before. *)

Theorem load_failure_is_silent (env : World) (url : string)
    (channelData : option Peaks) (explicit : option float) (w : WaveSurfer) :
  let r := load env url channelData explicit w in
  outcome r ≠ Returned tt →
  emitted r = [EvLoad url] ∧
  decodedData (final r) = None ∧
  Forall (λ a, ∀ data, a ≠ RendererRender data) (actions r).
Proof.
  intros r. subst r. symex.
  all: intros Hfail; try (by destruct Hfail).
  all: cbn [fmap list_fmap omap list_omap act event_of].
  all: split_and!; [reflexivity..|].
  all: repeat constructor; intros data; discriminate.
Qed.

(** X2 at work: with a rejected fetch the load throws, and the instance
    is left without decoded data after the single [load] event. *)
Lemma load_failure_is_silent_witness :
  let r := load offline "demo.wav" None None idle in
  outcome r ≠ Returned tt ∧
  emitted r = [EvLoad "demo.wav"] ∧
  decodedData (final r) = None ∧
  Forall (λ a, ∀ data, a ≠ RendererRender data) (actions r).
Proof.
  split; [discriminate|].
  apply (load_failure_is_silent offline "demo.wav" None None idle). discriminate.
Defined.

(** X3: [zoom] succeeds on the instance a [load] leaves behind exactly
    when that [load] returned; after a load that threw or is still
    suspended [zoom] throws, even if audio had been loaded before. *)

Theorem zoom_after_load (env : World) (url : string)
    (channelData : option Peaks) (explicit : option float) (w : WaveSurfer)
    (minPxPerSec : float) :
  let r := load env url channelData explicit w in
  outcome (zoom minPxPerSec (final r)) = Returned tt ↔ outcome r = Returned tt.
Proof.
  intros r. subst r. unfold zoom. rewrite bind_this. symex.
  all: split; intros H; first [reflexivity | discriminate H].
Qed.

(** X4: the calls of a [load] with peaks, in order: [pause] only if the
    player was playing, the [load] event, the source binding without a
    blob, the wait for [loadedmetadata] only if neither the explicit
    duration nor the player's duration is truthy, and, once the duration
    is resolved, [Decoder.createBuffer] with the peaks and that duration,
    the [decode] event, the render with its redraws and the [ready]
    event.  Nothing is fetched and nothing is decoded. *)

Theorem load_with_peaks_calls (env : World) (url : string) (peaks : Peaks)
    (explicit : option float) (w : WaveSurfer) :
  let r := load env url (Some peaks) explicit w in
  let given := match explicit with Some x => Js.truthy_num x | None => false end in
  actions r =
    (if playing (player w) then [PlayerPause] else []) ++
    [Emit (EvLoad url); PlayerSetSrc url None] ++
    (if given || Js.truthy_num (srcDuration env) then []
     else [PlayerOnceLoadedMetadata]) ++
    match priorityDuration env explicit with
    | Some d =>
        [DecoderCreateBuffer peaks (Some d);
         Emit (EvDecode (Some d));
         RendererRender (createBuffer peaks d)] ++
        replicate (renders env * attached (SubRenderer RRender) w) (Emit EvRedraw) ++
        [Emit (EvReady (Some d))]
    | None => []
    end.
Proof.
  intros r given. subst r given. unfold priorityDuration, orb. symex.
  all: unfold attached; cbn [fmap list_fmap act app orb listeners].
  all: rewrite ?fmap_app, ?fmap_replicate.
  all: cbn [fmap list_fmap act app createBuffer].
  all: reflexivity.
Qed.

(** X5: the calls of a [load] without peaks when fetch, read and decode
    all resolve, in order: [pause] only if the player was playing, the
    [load] event, the fetch with the [fetchParams] option, the source
    binding with the fetched blob, the wait for [loadedmetadata] only if
    needed, the read of the blob, the decode at the [sampleRate] option,
    the [decode] event, the render of the decoded data with its redraws
    and the [ready] event, both events carrying the corrected duration. *)

Theorem load_without_peaks_calls (env : World) (url : string)
    (explicit : option float) (w : WaveSurfer)
    (blob buf : Handle) (data : AudioBuffer) (d : float) :
  fetched env = Resolved blob →
  arrayBuffer env = Resolved buf →
  decoded env = Resolved data →
  priorityDuration env explicit = Some d →
  let r := load env url None explicit w in
  let given := match explicit with Some x => Js.truthy_num x | None => false end in
  let d' := if Js.is_zero d || Js.is_infinity d then ab_duration data else d in
  actions r =
    (if playing (player w) then [PlayerPause] else []) ++
    [Emit (EvLoad url);
     FetchBlob url (prop "fetchParams" (options w));
     PlayerSetSrc url (Some blob)] ++
    (if given || Js.truthy_num (srcDuration env) then []
     else [PlayerOnceLoadedMetadata]) ++
    [BlobArrayBuffer blob;
     DecoderDecode buf (prop "sampleRate" (options w));
     Emit (EvDecode (Some d'));
     RendererRender data] ++
    replicate (renders env * attached (SubRenderer RRender) w) (Emit EvRedraw) ++
    [Emit (EvReady (Some d'))].
Proof.
  intros Hf Hb Hd Hp r given d'. subst r given d'.
  revert Hf Hb Hd Hp. unfold priorityDuration, orb. symex.
  all: intros Hf Hb Hd Hp; simplify_eq.
  all: repeat match goal with
       | H : context [Js.is_zero 0] |- _ => vm_compute in H
       | |- context [Js.is_zero 0] => vm_compute (Js.is_zero 0)
       end; try discriminate.
  all: try match goal with
       | Hz : Js.is_zero ?x = _, Ho : Js.is_zero ?x || Js.is_infinity ?x = _ |- _ =>
           rewrite Hz in Ho; cbn [orb] in Ho;
           try match goal with
               | Hi : Js.is_infinity x = _ |- _ => rewrite Hi in Ho
               end;
           try discriminate Ho
       end.
  all: unfold attached; cbn [fmap list_fmap act app listeners options].
  all: rewrite ?fmap_app, ?fmap_replicate.
  all: cbn [fmap list_fmap act app].
  all: reflexivity.
Qed.

(** X5 at work: in a world where everything resolves and the player
    reports 5 seconds. *)
Lemma load_without_peaks_calls_witness :
  let data := {| ab_duration := 7; ab_channels := None; ab_source := Some 2 |} in
  fetched studio = Resolved 1 ∧
  arrayBuffer studio = Resolved 2 ∧
  decoded studio = Resolved data ∧
  priorityDuration studio None = Some 5%float ∧
  actions (load studio "demo.wav" None None idle) =
    [Emit (EvLoad "demo.wav");
     FetchBlob "demo.wav" VUndefined;
     PlayerSetSrc "demo.wav" (Some 1);
     BlobArrayBuffer 1;
     DecoderDecode 2 (VNum 8000);
     Emit (EvDecode (Some 5%float));
     RendererRender data;
     Emit EvRedraw;
     Emit (EvReady (Some 5%float))].
Proof.
  split_and!; [reflexivity..|].
  apply (load_without_peaks_calls studio "demo.wav" None idle 1 2
           {| ab_duration := 7; ab_channels := None; ab_source := Some 2 |} 5).
  all: reflexivity.
Defined.

Lemma load_returns_duration (env : World) (url : string)
    (channelData : option Peaks) (explicit : option float) (w : WaveSurfer) :
  outcome (load env url channelData explicit w) = Returned tt →
  ∃ d, duration (final (load env url channelData explicit w)) = Some d.
Proof.
  symex. all: intros Hret; try discriminate Hret. all: eexists; reflexivity.
Qed.

Lemma seek_with_duration (w : WaveSurfer) (d progress : float) :
  duration w = Some d →
  outcome (getDuration w) = Returned d ∧
  actions (seekTo progress w) = [PlayerSetTime (PrimFloat.mul d progress)].
Proof.
  intros Hd.
  assert (Hget : getDuration w =
                 {| outcome := Returned d; final := w; trace := [] |}).
  { unfold getDuration. rewrite bind_this. by rewrite Hd. }
  split; [by rewrite Hget|].
  unfold seekTo. rewrite bind_run, Hget. reflexivity.
Qed.

(** X6: after a [load] that returned, the duration is resolved, and from
    then on [getDuration()] returns it whatever the media player reports
    itself, and [seekTo(progress)] sets the player's time to that duration
    times [progress]. *)

Theorem load_fixes_duration (env : World) (url : string) (channelData : option Peaks)
    (explicit : option float) (w : WaveSurfer) :
  let r := load env url channelData explicit w in
  outcome r = Returned tt →
  ∃ d, duration (final r) = Some d ∧
       ∀ (media : Player) (progress : float),
         let w' := set_player media (final r) in
         outcome (getDuration w') = Returned d ∧
         actions (seekTo progress w') = [PlayerSetTime (PrimFloat.mul d progress)].
Proof.
  intros r Hret. subst r.
  destruct (load_returns_duration env url channelData explicit w Hret) as (d & Hd).
  exists d. split; [exact Hd|]. intros media progress w'. subst w'.
  apply seek_with_duration. exact Hd.
Qed.

(** X6 at work: after a load in a world where everything resolves. *)
Lemma load_fixes_duration_witness :
  let r := load studio "demo.wav" None None idle in
  outcome r = Returned tt ∧
  ∃ d, duration (final r) = Some d ∧
       ∀ (media : Player) (progress : float),
         let w' := set_player media (final r) in
         outcome (getDuration w') = Returned d ∧
         actions (seekTo progress w') = [PlayerSetTime (PrimFloat.mul d progress)].
Proof.
  split; [reflexivity|].
  apply (load_fixes_duration studio "demo.wav" None None idle). reflexivity.
Defined.

(** X7: [empty()] returns at once and loads one silent sample of 0.001
    seconds under the empty url: no fetch, no decode and no wait for
    metadata; the decoded data is that sample, [getDuration()] is 0.001
    afterwards, and [load], [decode], the redraws and [ready] are
    emitted. *)

Theorem empty_resets (env : World) (w : WaveSurfer) :
  let r := empty env w in
  let silence := createBuffer [[0%float]] 0x1.0624dd2f1a9fcp-10%float in
  outcome r = Returned tt ∧
  duration (final r) = Some 0x1.0624dd2f1a9fcp-10%float ∧
  decodedData (final r) = Some silence ∧
  outcome (getDuration (final r)) = Returned 0x1.0624dd2f1a9fcp-10%float ∧
  actions r =
    (if playing (player w) then [PlayerPause] else []) ++
    [Emit (EvLoad ""); PlayerSetSrc "" None;
     DecoderCreateBuffer [[0%float]] (Some 0x1.0624dd2f1a9fcp-10%float);
     Emit (EvDecode (Some 0x1.0624dd2f1a9fcp-10%float));
     RendererRender silence] ++
    replicate (renders env * attached (SubRenderer RRender) w) (Emit EvRedraw) ++
    [Emit (EvReady (Some 0x1.0624dd2f1a9fcp-10%float))].
Proof.
  intros r silence. subst r silence. unfold empty.
  rewrite detached_run. cbn [outcome final trace].
  unfold getDuration. rewrite bind_this.
  symex.
  all: try match goal with
       | H : Js.truthy_num _ = false |- _ => vm_compute in H; discriminate H
       end.
  all: unfold attached; cbn [fmap list_fmap act app listeners].
  all: rewrite ?fmap_app, ?fmap_replicate.
  all: cbn [fmap list_fmap act app createBuffer].
  all: by split_and!.
Qed.


(** ** The debounced seek of a drag *)

Lemma onDrag_run (relativeX : float) (s : WaveSurfer) :
  interactive s = true →
  let t := scheduler s in
  let delay := if playing (player s) then 0 else 200 in
  outcome (onDrag relativeX s) = Returned tt ∧
  final (onDrag relativeX s) =
    set_scheduler
      {| debounce := Some (nextHandle t);
         pending := filter (λ c, Some (fst c) ≠ debounce t) (pending t)
                    ++ [(nextHandle t, (relativeX, delay))];
         nextHandle := S (nextHandle t) |} s.
Proof.
  intros Hs t delay. subst t delay.
  unfold onDrag. rewrite bind_this, Hs. cbn [negb].
  destruct s as [o ps dd du subs [pl ct md] ls [db pe nh]].
  handle. by destruct du, pl.
Qed.

Lemma onTimeout_due (h : nat) (relativeX : float) (delay : nat) (s : WaveSurfer) :
  pending (scheduler s) = [(h, (relativeX, delay))] →
  (∀ h', h' ≠ h →
     onTimeout h' s = {| outcome := Returned tt; final := s; trace := [] |}) ∧
  actions (onTimeout h s) =
    [PlayerSetTime (PrimFloat.mul (default (mediaDuration (player s)) (duration s))
                                  relativeX)] ∧
  pending (scheduler (final (onTimeout h s))) = [].
Proof.
  intros Hp. split_and!.
  - intros h' Hne. unfold onTimeout. rewrite bind_this, Hp.
    cbn [list_find fst]. rewrite decide_False by (cbn; congruence). reflexivity.
  - unfold onTimeout. rewrite bind_this, Hp.
    cbn [list_find fst]. rewrite decide_True by reflexivity.
    cbn [fmap option_fmap option_map filter list_filter].
    rewrite decide_False by (cbn; congruence).
    destruct s as [o ps dd du subs [pl ct md] ls [db pe nh]].
    handle. by destruct du.
  - unfold onTimeout. rewrite bind_this, Hp.
    cbn [list_find fst]. rewrite decide_True by reflexivity.
    cbn [fmap option_fmap option_map filter list_filter].
    rewrite decide_False by (cbn; congruence).
    destruct s as [o ps dd du subs [pl ct md] ls [db pe nh]].
    handle. by destruct du.
Qed.

Lemma pending_cleared {A} (db : option nat) (l : list (nat * A)) :
  Forall (λ c, Some (fst c) = db) l →
  filter (λ c, Some (fst c) ≠ db) l = [].
Proof.
  induction 1 as [|c l Hc _ IH]; [reflexivity|].
  by rewrite filter_cons_False by (by intros ?).
Qed.

(** X8: with interaction enabled, a drag schedules one seek and a second
    drag replaces it: after two drags only the second seek is pending,
    the timeout of the first does nothing when it comes due, and the
    timeout of the second seeks to the second position and leaves nothing
    pending.  The delay is 0 when the player is playing and 200 ms
    otherwise. *)

Theorem drag_replaces_pending_seek (x1 x2 : float) (w : WaveSurfer) :
  interactive w = true →
  Forall (λ c, Some (fst c) = debounce (scheduler w)) (pending (scheduler w)) →
  let h := nextHandle (scheduler w) in
  let delay := if playing (player w) then 0 else 200 in
  let w1 := final (onDrag x1 w) in
  let w2 := final (onDrag x2 w1) in
  pending (scheduler w1) = [(h, (x1, delay))] ∧
  pending (scheduler w2) = [(S h, (x2, delay))] ∧
  onTimeout h w2 = {| outcome := Returned tt; final := w2; trace := [] |} ∧
  actions (onTimeout (S h) w2) =
    [PlayerSetTime (PrimFloat.mul (default (mediaDuration (player w)) (duration w)) x2)] ∧
  pending (scheduler (final (onTimeout (S h) w2))) = [].
Proof.
  intros Hw Hpending h delay w1 w2.
  destruct (onDrag_run x1 w Hw) as (_ & Hw1).
  assert (Hp1 : pending (scheduler w1) = [(h, (x1, delay))]).
  { subst w1. rewrite Hw1. cbn [scheduler set_scheduler pending].
    by rewrite pending_cleared. }
  assert (Hi1 : interactive w1 = true) by (subst w1; by rewrite Hw1).
  destruct (onDrag_run x2 w1 Hi1) as (_ & Hw2).
  assert (Hp2 : pending (scheduler w2) = [(S h, (x2, delay))]).
  { subst w2. rewrite Hw2. cbn [scheduler set_scheduler pending].
    rewrite Hp1. subst w1. rewrite Hw1.
    cbn [scheduler set_scheduler debounce nextHandle player set_player].
    by rewrite filter_cons_False by (by intros ?). }
  destruct (onTimeout_due (S h) x2 delay w2 Hp2) as (Hother & Hact & Hdone).
  split_and!; [exact Hp1|exact Hp2| | |exact Hdone].
  - apply Hother. lia.
  - rewrite Hact. subst w2. rewrite Hw2. subst w1. by rewrite Hw1.
Qed.

(** X8 at work: on a newly created instance. *)
Lemma drag_replaces_pending_seek_witness :
  let w1 := final (onDrag 0.25 idle) in
  let w2 := final (onDrag 0.5 w1) in
  interactive idle = true ∧
  pending (scheduler w1) = [(1, (0.25%float, 200))] ∧
  pending (scheduler w2) = [(2, (0.5%float, 200))] ∧
  onTimeout 1 w2 = {| outcome := Returned tt; final := w2; trace := [] |} ∧
  actions (onTimeout 2 w2) =
    [PlayerSetTime (PrimFloat.mul (default (mediaDuration (player idle)) (duration idle))
                                  0.5)] ∧
  pending (scheduler (final (onTimeout 2 w2))) = [].
Proof.
  split; [reflexivity|].
  apply (drag_replaces_pending_seek 0.25 0.5 idle); [reflexivity|].
  apply Forall_nil_2.
Defined.


(** ** What the constructor leaves behind *)

Lemma registerPlugins_final (l : list PluginId) (w : WaveSurfer) :
  let r := forEach l (λ plugin, registerPlugin plugin ;; mret tt) w in
  plugins (final r) = plugins w ++ l ∧
  subscriptions (final r) = subscriptions w ++ (SubPluginDestroy <$> l) ∧
  listeners (final r) = listeners w ++ (SubPluginDestroy <$> l).
Proof.
  revert w. induction l as [|p l IH]; intros w.
  { cbn [forEach fmap list_fmap]. cbv [mret M_ret final]. by rewrite !app_nil_r. }
  cbn [forEach].
  set (w1 := final ((registerPlugin p ;; mret tt) w)).
  destruct (IH w1) as (Hp & Hs & Hl).
  rewrite bind_run.
  change (outcome ((registerPlugin p ;; mret tt) w)) with (Returned tt).
  cbv iota. fold w1.
  rewrite extend_final, Hp, Hs, Hl.
  change (plugins w1) with (plugins w ++ [p]).
  change (subscriptions w1) with (subscriptions w ++ [SubPluginDestroy p]).
  change (listeners w1) with (listeners w ++ [SubPluginDestroy p]).
  cbn [fmap list_fmap]. by rewrite <- !app_assoc.
Qed.

Lemma initPlugins_final (w : WaveSurfer) :
  let ps := default [] (prop_plugins "plugins" (options w)) in
  plugins (final (initPlugins w)) = plugins w ++ ps ∧
  subscriptions (final (initPlugins w)) = subscriptions w ++ (SubPluginDestroy <$> ps) ∧
  listeners (final (initPlugins w)) = listeners w ++ (SubPluginDestroy <$> ps).
Proof.
  unfold initPlugins. rewrite bind_this.
  destruct (prop_plugins "plugins" (options w)) as [[|p ps]|].
  - cbn [default fmap list_fmap]. cbv [mret M_ret final]. by rewrite !app_nil_r.
  - apply (registerPlugins_final (p :: ps) w).
  - cbn [default fmap list_fmap]. cbv [mret M_ret final]. by rewrite !app_nil_r.
Qed.

Lemma setup_final (o : Options) (w : WaveSurfer) :
  let ps := default [] (prop_plugins "plugins" o) in
  let handlers :=
    (SubMedia <$> [MTimeupdate; MPlay; MPause; MEnded; MSeeking]) ++
    (SubRenderer <$> [RClick; RScroll; RRender; RDrag]) ++ [SubTimerTick] in
  plugins (final (setup o w)) = plugins w ++ ps ∧
  subscriptions (final (setup o w)) =
    subscriptions w ++ handlers ++ (SubPluginDestroy <$> ps) ∧
  listeners (final (setup o w)) =
    listeners w ++ handlers ++ (SubPluginDestroy <$> ps).
Proof.
  intros ps handlers. subst ps handlers.
  assert (Hps : prop_plugins "plugins" (assign defaultOptions o) =
                 prop_plugins "plugins" o).
  { unfold prop_plugins. by rewrite prop_not_defaulted. }
  rewrite <- Hps. clear Hps.
  cbv [setup initPlayerEvents initRendererEvents initTimerEvents forEach
       subscribe call update this mbind M_bind mret M_ret extend
       outcome final trace set_options set_listeners set_subscriptions
       options plugins decodedData duration subscriptions player listeners
       scheduler].
  match goal with
  | |- context [initPlugins ?w0] =>
      destruct (initPlugins_final w0) as (Hp & Hs & Hl);
      destruct (initPlugins w0) as [oc wf tr]
  end.
  cbv [final plugins subscriptions listeners options] in Hp, Hs, Hl.
  destruct oc, wf; cbv [final plugins subscriptions listeners].
  all: rewrite Hp, Hs, Hl; cbn [fmap list_fmap]; by rewrite <- !app_assoc.
Qed.

Lemma create_final (env : World) (o : Options) :
  final (create env o) =
    match autoloadUrl o with
    | Some url =>
        final (load env url (prop_peaks "peaks" o) (prop_num "duration" o)
                 (final (setup o (initial env o))))
    | None => final (setup o (initial env o))
    end.
Proof.
  destruct (autoload_run (load env) o (initial env o)) as (_ & H).
  - intros url cd ex w. apply load_emits_load.
  - reflexivity.
  - unfold create, constructor. destruct (autoloadUrl o) as [url|].
    + by destruct H as (_ & -> & _).
    + by destruct H as (_ & -> & _).
Qed.

Lemma create_wiring (env : World) (o : Options) :
  let w := final (create env o) in
  let ps := default [] (prop_plugins "plugins" o) in
  let handlers :=
    (SubMedia <$> [MTimeupdate; MPlay; MPause; MEnded; MSeeking]) ++
    (SubRenderer <$> [RClick; RScroll; RRender; RDrag]) ++ [SubTimerTick] in
  options w = assign defaultOptions o ∧
  plugins w = ps ∧
  subscriptions w = handlers ++ (SubPluginDestroy <$> ps) ∧
  listeners w = handlers ++ (SubPluginDestroy <$> ps).
Proof.
  intros w ps handlers. subst w ps handlers.
  destruct (setup_run o (initial env o)) as (_ & Hopt & _ & _).
  destruct (setup_final o (initial env o)) as (Hp & Hs & Hl).
  change (plugins (initial env o)) with (@nil PluginId) in Hp.
  change (subscriptions (initial env o)) with (@nil Subscription) in Hs.
  change (listeners (initial env o)) with (@nil Subscription) in Hl.
  rewrite app_nil_l in Hp. rewrite app_nil_l in Hs. rewrite app_nil_l in Hl.
  rewrite create_final. destruct (autoloadUrl o) as [url|].
  - destruct (load_frame env url (prop_peaks "peaks" o) (prop_num "duration" o)
                (final (setup o (initial env o)))) as (-> & -> & -> & -> & _).
    by rewrite Hopt, Hp, Hs, Hl.
  - by rewrite Hopt, Hp, Hs, Hl.
Qed.

(** X9: the configuration of a new instance is the given options over
    the defaults: a key of the given options has the given value, any
    other key has its default ([waveColor], [progressColor],
    [cursorWidth], [minPxPerSec], [fillParent], [interact], [autoScroll],
    [autoCenter], [sampleRate]) or is absent; a load started by the
    constructor does not change it. *)

Theorem constructor_options (env : World) (o : Options) (k : string) :
  options (final (create env o)) !! k =
    match o !! k with
    | Some v => Some v
    | None => defaultOptions !! k
    end.
Proof.
  destruct (create_wiring env o) as (-> & _). apply assign_lookup.
Qed.

(** X10: a new instance has registered the plugins of the [plugins]
    option, in their order, and holds one subscription for each of its
    ten handlers (five media events, click, scroll, render, drag and the
    timer tick, pushed in this order) followed by one per plugin; each
    held subscription is an attached listener.  A load started by the
    constructor does not change this. *)


Lemma times_one (m : M unit) (w : WaveSurfer) : times 1 m w = m w.
Proof.
  cbn [times]. rewrite bind_run.
  destruct (m w) as [[[]|e|] w' t]; cbn [outcome final trace]; [|reflexivity..].
  cbv [mret M_ret extend]. by rewrite app_nil_r.
Qed.

Lemma create_fires_once (env : World) (o : Options)
    (s : Subscription) (handler : M unit) :
  (∀ p, s ≠ SubPluginDestroy p) →
  fire s handler (final (create env o)) = handler (final (create env o)).
Proof.
  intros Hs. unfold fire. rewrite bind_this.
  destruct (create_wiring env o) as (_ & _ & _ & ->).
  rewrite filter_app.
  assert (Hps : filter (λ l, l = s)
                  (SubPluginDestroy <$> default [] (prop_plugins "plugins" o)) = []).
  { induction (default [] (prop_plugins "plugins" o)) as [|p ps IH]; [reflexivity|].
    cbn [fmap list_fmap]. rewrite filter_cons_False by apply not_eq_sym, Hs.
    exact IH. }
  rewrite Hps, app_nil_r.
  destruct s as [[]|[]| |p]; try (by destruct (Hs p)).
  all: apply times_one.
Qed.

(** X11: on a new instance every media event, the timer tick and the
    renderer's scroll reach their handler exactly once and leave the
    instance as it is.  [play] emits [play] and starts the timer; [pause]
    emits [pause] and stops it; [ended] emits [finish]; [seeking] emits
    [seeking] with the current time; [timeupdate] draws the progress
    (current time over duration, with the playing flag) and emits
    [timeupdate]; a tick draws the progress as playing and emits
    [timeupdate] and [audioprocess] with the same time; a scroll emits
    [scroll] with both ends scaled by the duration. *)
Theorem new_instance_forwards_events (env : World) (o : Options)
    (ev : MediaEvent) (startX endX : float) :
  let w := final (create env o) in
  let t := currentTime (player w) in
  let d := default (mediaDuration (player w)) (duration w) in
  let quiet (r : Run unit) := outcome r = Returned tt ∧ final r = w in
  quiet (fire (SubMedia ev) (onMedia ev) w) ∧
  actions (fire (SubMedia ev) (onMedia ev) w) =
    match ev with
    | MTimeupdate =>
        [RendererRenderProgress (PrimFloat.div t d) (Some (playing (player w)));
         Emit (EvTimeupdate t)]
    | MPlay => [Emit EvPlay; TimerStart]
    | MPause => [Emit EvPause; TimerStop]
    | MEnded => [Emit EvFinish]
    | MSeeking => [Emit (EvSeeking t)]
    end ∧
  quiet (fire SubTimerTick onTick w) ∧
  actions (fire SubTimerTick onTick w) =
    [RendererRenderProgress (PrimFloat.div t d) (Some true);
     Emit (EvTimeupdate t); Emit (EvAudioprocess t)] ∧
  quiet (fire (SubRenderer RScroll) (onScroll startX endX) w) ∧
  actions (fire (SubRenderer RScroll) (onScroll startX endX) w) =
    [Emit (EvScroll (PrimFloat.mul startX d) (PrimFloat.mul endX d))].
Proof.
  intros w t d quiet. subst t d quiet w.
  rewrite !create_fires_once by (intros p; discriminate).
  generalize (final (create env o)). intros w.
  destruct w as [op ps dd du subs [pl ct md] ls sch].
  cbv [onMedia onTick onScroll getCurrentTime getDuration isPlaying
       emit call update this mbind M_bind mret M_ret outcome final trace extend
       options plugins decodedData duration subscriptions player listeners
       scheduler playing currentTime mediaDuration].
  destruct ev, du; cbn [app fmap list_fmap act default]; by split_and!.
Qed.

(** ** What [destroy] leaves behind *)

Lemma detach_sublist (s : Subscription) (l : list Subscription) :
  detach s l `sublist_of` l.
Proof.
  induction l as [|x l IH]; [constructor|].
  cbn [detach]. destruct (decide (x = s)); by constructor.
Qed.

Lemma forEach_unsubscribe_final (l : list Subscription) (w : WaveSurfer) :
  let w' := final (forEach l unsubscribe w) in
  listeners w' = foldl (λ ls s, detach s ls) (listeners w) l ∧
  plugins w' = plugins w.
Proof.
  revert w. induction l as [|s l IH]; intros w; [done|].
  cbn [forEach foldl].
  destruct (bind_returned (unsubscribe s) (λ _, forEach l unsubscribe) w tt)
    as (_ & -> & _); [reflexivity|].
  destruct (IH (final (unsubscribe s w))) as (-> & ->). done.
Qed.

Lemma detach_all (held ls : list Subscription) :
  ls `sublist_of` held → foldl (λ ls s, detach s ls) ls held = [].
Proof.
  revert ls. induction held as [|s held IH]; intros ls Hsub.
  { by apply sublist_nil_r in Hsub as ->. }
  cbn [foldl]. apply IH.
  inversion Hsub as [|x l1 l2 Hl|x l1 l2 Hl]; subst.
  - cbn [detach]. by rewrite decide_True.
  - etrans; [apply detach_sublist|exact Hl].
Qed.

Lemma filter_all {A} (P : A → Prop) `{∀ x, Decision (P x)} (l : list A) :
  (∀ x, x ∈ l → P x) → filter P l = l.
Proof.
  induction l as [|x l IH]; intros Hl; [reflexivity|].
  rewrite filter_cons_True by (apply Hl; constructor).
  rewrite IH; [reflexivity|]. intros y Hy. apply Hl. by constructor.
Qed.

Lemma filter_iff_in {A} (P Q : A → Prop) `{∀ x, Decision (P x)}
    `{∀ x, Decision (Q x)} (l : list A) :
  (∀ x, x ∈ l → P x ↔ Q x) → filter P l = filter Q l.
Proof.
  induction l as [|x l IH]; intros Hl; [reflexivity|].
  rewrite !filter_cons.
  rewrite IH by (intros y Hy; apply Hl; by constructor).
  destruct (decide (P x)) as [Hx|Hx], (decide (Q x)) as [Hx'|Hx']; try reflexivity.
  - destruct Hx'. by apply (Hl x); [constructor|].
  - destruct Hx. by apply (Hl x); [constructor|].
Qed.

Lemma pluginDestroy_final (env : World) (p : PluginId) (w : WaveSurfer) :
  let w' := final (pluginDestroy env p w) in
  let announced := signals env p = true ∧ SubPluginDestroy p ∈ listeners w in
  plugins w' = filter (λ q, ¬ (q = p ∧ announced)) (plugins w) ∧
  listeners w' = filter (λ s, ¬ (s = SubPluginDestroy p ∧ signals env p = true))
                   (listeners w).
Proof.
  intros w' announced. subst w' announced.
  unfold pluginDestroy. rewrite bind_run.
  cbv [call outcome final trace extend].
  destruct (signals env p) eqn:Hsig; cbv [when].
  - rewrite signalPluginDestroy_run. cbv [final].
    destruct (attached (SubPluginDestroy p) w) eqn:Hn.
    + apply filter_count_zero in Hn. split.
      * cbn [plugins set_listeners]. symmetry. apply filter_all.
        intros q _ (_ & _ & Hin). by apply Hn.
      * cbn [listeners set_listeners]. apply list_filter_iff. intros s. intuition congruence.
    + assert (Hin : SubPluginDestroy p ∈ listeners w).
      { destruct (decide (SubPluginDestroy p ∈ listeners w)) as [|Hno]; [done|].
        apply (filter_count_zero (SubPluginDestroy p)) in Hno.
        unfold attached in Hn. congruence. }
      split.
      * cbn [plugins set_plugins set_listeners]. apply list_filter_iff.
        intros q. intuition congruence.
      * cbn [listeners set_plugins set_listeners]. apply list_filter_iff.
        intros s. intuition congruence.
  - cbv [mret M_ret final]. split; symmetry; apply filter_all.
    + intros q _ (_ & Hs & _). discriminate Hs.
    + intros s _ (_ & Hs). discriminate Hs.
Qed.

Lemma forEach_pluginDestroy_final (env : World) (l : list PluginId) (w : WaveSurfer) :
  let w' := final (forEach l (pluginDestroy env) w) in
  plugins w' =
    filter (λ q, ¬ (q ∈ l ∧ signals env q = true ∧ SubPluginDestroy q ∈ listeners w))
      (plugins w) ∧
  listeners w' `sublist_of` listeners w.
Proof.
  revert w. induction l as [|p l IH]; intros w.
  { cbn [forEach]. cbv [mret M_ret final].
    split; [|done]. symmetry; apply filter_all.
    intros q _ (Hin & _). by apply not_elem_of_nil in Hin. }
  destruct (pluginDestroy_run env p w) as (Ho & _ & _).
  destruct (pluginDestroy_final env p w) as (Hp & Hl).
  destruct (IH (final (pluginDestroy env p w))) as (Hp' & Hl').
  cbn [forEach].
  destruct (bind_returned (pluginDestroy env p)
              (λ _, forEach l (pluginDestroy env)) w tt Ho) as (_ & -> & _).
  split.
  - rewrite Hp', Hl, Hp, !list_filter_filter.
    apply list_filter_iff. intros q.
    rewrite !list_elem_of_filter, elem_of_cons. split.
    + intros (Hrest & Hfirst) (Hin & Hsig & Hls).
      destruct (decide (q = p)) as [->|Hne]; [by apply Hfirst|].
      apply Hrest. split_and!; [by destruct Hin|done| |done].
      intros (Heq & _). congruence.
    + intros Hnot. split; [intros (Hin & Hsig & (_ & Hls)); apply Hnot; by split_and!; [right|..]|].
      intros (-> & Hsig & Hls).
      apply Hnot. by split_and!; [left|..].
  - etrans; [exact Hl'|]. rewrite Hl. apply sublist_filter.
Qed.

Lemma destroy_final (env : World) (w : WaveSurfer) :
  let w' := final (destroy env w) in
  (∃ ls, ls `sublist_of` listeners w ∧
         listeners w' = foldl (λ ls s, detach s ls) ls (subscriptions w)) ∧
  plugins w' =
    filter (λ p, ¬ (signals env p = true ∧ SubPluginDestroy p ∈ listeners w))
      (plugins w).
Proof.
  unfold destroy.
  destruct (bind_returned (emit EvDestroy)
              (λ _, w ← this;
                    forEach (plugins w) (pluginDestroy env) ;;
                    w ← this;
                    forEach (subscriptions w) unsubscribe ;;
                    call TimerDestroy ;; call RendererDestroy ;; call PlayerDestroy)
              w tt) as (_ & -> & _); [reflexivity|].
  change (final (emit EvDestroy w)) with w. rewrite bind_this.
  destruct (forEach_pluginDestroy env (plugins w) w) as (Ho & _ & Hs).
  destruct (forEach_pluginDestroy_final env (plugins w) w) as (Hp & Hl).
  destruct (bind_returned (forEach (plugins w) (pluginDestroy env))
              (λ _, w ← this;
                    forEach (subscriptions w) unsubscribe ;;
                    call TimerDestroy ;; call RendererDestroy ;; call PlayerDestroy)
              w tt Ho) as (_ & -> & _).
  rewrite bind_this.
  set (w1 := final (forEach (plugins w) (pluginDestroy env) w)) in *.
  destruct (forEach_unsubscribe (subscriptions w1) w1) as (Hu & _).
  destruct (forEach_unsubscribe_final (subscriptions w1) w1) as (Hf & Hf').
  destruct (bind_returned (forEach (subscriptions w1) unsubscribe)
              (λ _, call TimerDestroy ;; call RendererDestroy ;; call PlayerDestroy)
              w1 tt Hu) as (_ & -> & _).
  split.
  - exists (listeners w1). split; [exact Hl|].
    change (listeners (final (forEach (subscriptions w1) unsubscribe w1)) =
            foldl (λ ls s, detach s ls) (listeners w1) (subscriptions w)).
    by rewrite Hf, Hs.
  - change (plugins (final (forEach (subscriptions w1) unsubscribe w1)) =
            filter (λ p, ¬ (signals env p = true ∧ SubPluginDestroy p ∈ listeners w))
              (plugins w)).
    rewrite Hf', Hp. apply filter_iff_in. intros p Hin. intuition.
Qed.

(** X12: when every attached listener belongs to a held subscription,
    [destroy] leaves no listener attached: afterwards no signal of the
    media player, the renderer, the timer or a plugin reaches a handler
    of the instance. *)

Theorem destroy_releases_listeners (env : World) (w : WaveSurfer)
    (s : Subscription) (handler : M unit) :
  listeners w `sublist_of` subscriptions w →
  let w' := final (destroy env w) in
  listeners w' = [] ∧
  fire s handler w' = {| outcome := Returned tt; final := w'; trace := [] |}.
Proof.
  intros Hsub w'.
  assert (Hnone : listeners w' = []).
  { destruct (destroy_final env w) as ((ls & Hls & Hl) & _).
    subst w'. rewrite Hl. apply detach_all. by etrans. }
  split; [exact Hnone|].
  unfold fire. rewrite bind_this, Hnone. reflexivity.
Qed.

(** X12 at work: on a newly created instance, for the media player's
    [play]. *)
Lemma destroy_releases_listeners_witness :
  let w' := final (destroy studio idle) in
  listeners idle `sublist_of` subscriptions idle ∧
  listeners w' = [] ∧
  fire (SubMedia MPlay) (onMedia MPlay) w' =
    {| outcome := Returned tt; final := w'; trace := [] |}.
Proof.
  split; [reflexivity|].
  apply (destroy_releases_listeners studio idle (SubMedia MPlay) (onMedia MPlay)).
  reflexivity.
Defined.

(** X13: after [destroy] the active plugins are exactly those that did
    not announce their own destruction to a listener still attached: a
    plugin whose [destroy()] fires its [destroy] signal while the
    listener of [registerPlugin] is attached is gone (every copy of it),
    any other plugin is still listed, in the original order. *)

Theorem destroy_keeps_silent_plugins (env : World) (w : WaveSurfer) :
  plugins (final (destroy env w)) =
    filter (λ p, ¬ (signals env p = true ∧ SubPluginDestroy p ∈ listeners w))
      (plugins w).
Proof. apply destroy_final. Qed.

(** X14: constructing an instance and destroying it leaves no listener
    attached, whatever the options and whatever was loaded; of the plugins
    of the [plugins] option only those that do not fire their [destroy]
    signal stay listed. *)



(** ** Reconfiguration *)

Lemma setOptions_frame (partial : Options) (w : WaveSurfer) :
  final (setOptions partial w) = set_options (assign (options w) partial) w ∧
  Forall (λ a, (∃ o, a = RendererSetOptions o) ∨ (∃ v, a = PlayerSetPlaybackRate v))
         (actions (setOptions partial w)).
Proof.
  unfold setOptions, setPlaybackRate.
  rewrite !bind_run. simpl. rewrite !bind_run. simpl.
  destruct (truthy (prop "audioRate" partial)); simpl.
  all: split; [reflexivity|].
  all: repeat first [apply Forall_nil_2 | apply Forall_cons_2].
  all: first [left; eexists; reflexivity | right; eexists; reflexivity].
Qed.

(** X15: [setOptions] only reconfigures: whatever keys the partial
    options carry ([plugins], [url], [peaks], [media], ...), it registers
    no plugin, starts no load (no [load] event, fetch, source binding or
    decode) and leaves the plugins, the subscriptions, the listeners, the
    decoded data, the duration and the player state as they were. *)

Theorem setOptions_only_reconfigures (partial : Options) (w : WaveSurfer) :
  let r := setOptions partial w in
  plugins (final r) = plugins w ∧
  subscriptions (final r) = subscriptions w ∧
  listeners (final r) = listeners w ∧
  decodedData (final r) = decodedData w ∧
  duration (final r) = duration w ∧
  player (final r) = player w ∧
  Forall (λ a, proceeds a = false ∧ ∀ p, a ≠ PluginInit p) (actions r).
Proof.
  intros r. subst r. destruct (setOptions_frame partial w) as (-> & Hactions).
  split_and!; [reflexivity..|].
  eapply Forall_impl; [exact Hactions|].
  intros a [[o ->]|[v ->]]; split; first [reflexivity | intros p; discriminate].
Qed.

(** X16: two [setOptions] calls configure the instance as one call with
    the second partial options merged over the first, and repeating a
    call changes nothing in the configuration. *)

Theorem setOptions_composes (p1 p2 : Options) (w : WaveSurfer) :
  options (final (setOptions p2 (final (setOptions p1 w)))) =
    options (final (setOptions (assign p1 p2) w)) ∧
  options (final (setOptions p1 (final (setOptions p1 w)))) =
    options (final (setOptions p1 w)).
Proof.
  destruct (setOptions_frame p1 w) as (Hf1 & _).
  split.
  - destruct (setOptions_frame p2 (final (setOptions p1 w))) as (-> & _).
    destruct (setOptions_frame (assign p1 p2) w) as (-> & _).
    rewrite Hf1. unfold assign. cbn [options set_options].
    by rewrite (assoc_L (∪)).
  - destruct (setOptions_frame p1 (final (setOptions p1 w))) as (-> & _).
    rewrite Hf1. unfold assign. cbn [options set_options].
    by rewrite (assoc_L (∪)), (idemp_L (∪)).
Qed.

(** X17: [toggleInteraction(b)] leaves the instance in the state that
    [setOptions({interact: b})] leaves it in, but silently: it performs
    no action, whereas [setOptions] hands the new configuration to the
    renderer. *)

Theorem toggleInteraction_is_a_silent_setOptions (b : bool) (w : WaveSurfer) :
  final (toggleInteraction b w) = final (setOptions {[ "interact" := VBool b ]} w) ∧
  trace (toggleInteraction b w) = [] ∧
  actions (setOptions {[ "interact" := VBool b ]} w) =
    [RendererSetOptions (options (final (toggleInteraction b w)))].
Proof.
  destruct (setOptions_frame {[ "interact" := VBool b ]} w) as (Hf & _).
  assert (Ho : assign (options w) {[ "interact" := VBool b ]} =
               <["interact" := VBool b]> (options w)).
  { unfold assign. symmetry. apply insert_union_singleton_l. }
  split_and!.
  - rewrite Hf, Ho. reflexivity.
  - reflexivity.
  - unfold setOptions, setPlaybackRate. rewrite !bind_run. simpl.
    rewrite !bind_run. simpl. rewrite Ho.
    replace (truthy (prop "audioRate" {[ "interact" := VBool b ]})) with false;
      [reflexivity|].
    unfold prop. by rewrite lookup_singleton_ne.
Qed.


(** ** An invariant of the subscriptions *)

(** X18: that every attached listener belongs to a held subscription is
    kept by [registerPlugin], by a plugin's [destroy()], by [load], by
    [setOptions] and by [toggleInteraction]. *)


